(** * Equally Sloped Tomography: [EST_Angles] and [EST_reco]

    A shallow embedding of [Notebooks/FBP-EST.ipynb].

    - The reconstruction loop [EST_reco] is embedded over binary64 numbers
      (Rocq's primitive [float], which is numpy's [float64]): its branches
      compare floating-point values, start from [np.inf] and guard a
      division by a computed maximum.
    - The angle sampler [EST_Angles] is embedded over binary64 numbers as
      well, with [np.linspace] as numpy computes it; [np.arcsin] is the C
      library's and is a parameter.
    - The library calls [scipy.ndimage.rotate] and [skimage.transform.iradon]
      are not part of the repository: they are parameters ([Externals]).
    - A 2-D array is the list of its rows; an array without rows is taken
      to have no columns. Element-wise operations pair the elements of
      their operands; the operands have the same shape as long as [rotate]
      keeps the shape of its argument, as [reshape=False] makes it do.
    - An exception raised by an array operation is a result ([Raise]).
    - The two [print] calls of the loop are left out: nothing the loop
      computes depends on them. *)

From Stdlib Require Import ZArith List Lia Bool Floats Uint63 Reals Lra.
From stdpp Require Import base list.
Import ListNotations.

(** ** Python exceptions *)

Inductive exn := ValueError | IndexError.

Inductive result (A : Type) : Type :=
| Ok (a : A)
| Raise (e : exn).
Arguments Ok {A} a.
Arguments Raise {A} e.

#[global] Instance result_ret : MRet result := fun _ a => Ok a.
#[global] Instance result_bind : MBind result :=
  fun _ _ f m => match m with Ok a => f a | Raise e => Raise e end.

(** The call returned; it did not raise. *)
Definition returns {A : Type} (r : result A) : bool :=
  match r with Ok _ => true | Raise _ => false end.

Abbreviation vector := (list float).
Abbreviation matrix := (list (list float)).

(** [for i, a in enumerate(l): s = body(i, a, s)], started at index [i]. *)
Fixpoint for_enumerate {A St : Type} (body : nat -> A -> St -> result St)
    (i : nat) (l : list A) (s : St) : result St :=
  match l with
  | [] => Ok s
  | a :: l' => s' ← body i a s; for_enumerate body (S i) l' s'
  end.

(** ** The numpy operations the notebook uses *)

Module np.

Definition shape (m : matrix) : nat * nat := (length m, length (hd [] m)).

Definition zeros (r c : nat) : matrix := replicate r (replicate c 0%float).

Definition zeros_like (m : matrix) : matrix :=
  map (map (fun _ : float => 0%float)) m.

Definition subtract (a b : matrix) : matrix :=
  zip_with (zip_with PrimFloat.sub) a b.

Definition add (a b : matrix) : matrix :=
  zip_with (zip_with PrimFloat.add) a b.

Definition abs (m : matrix) : matrix := map (map PrimFloat.abs) m.

(** The scalar loop of [np.maximum]: [(a >= b || isnan(a)) ? a : b]. *)
Definition maximum_scalar (a b : float) : float :=
  if (b <=? a)%float || PrimFloat.is_nan a then a else b.

(** [np.maximum(m, c)] with a scalar [c]. *)
Definition maximum (m : matrix) (c : float) : matrix :=
  map (map (fun x => maximum_scalar x c)) m.

(** [np.max(m)]: [maximum] reduced over all elements; an empty array has
    no maximum. *)
Definition max (m : matrix) : result float :=
  match concat m with
  | [] => Raise ValueError
  | x :: xs => Ok (fold_left maximum_scalar xs x)
  end.

(** [np.sum(m, axis=0)]: the rows added up, one after the other. *)
Definition sum_axis0 (m : matrix) : vector :=
  match m with
  | [] => []
  | r :: rs => fold_left (zip_with PrimFloat.add) rs r
  end.

Definition transpose (m : matrix) : matrix :=
  map (fun j => map (fun r => nth j r 0%float) m) (seq 0 (length (hd [] m))).

(** [np.rot90(m, -1)], which numpy computes as [flip(transpose(m), 1)]. *)
Definition rot90_neg1 (m : matrix) : matrix := map (@rev float) (transpose m).

(** A Python [int] (below 2^63) used as a [float64] operand. *)
Definition float_of_nat (n : nat) : float :=
  PrimFloat.of_uint63 (Uint63.of_Z (Z.of_nat n)).

(** [np.pi], the binary64 number nearest to pi. *)
Definition pi : float := 0x1.921fb54442d18p+1%float.

End np.

(** ** The library calls

    [rotate img angle] is [scipy.ndimage.rotate(img, angle, reshape=False,
    order=1)] and [iradon radon_image theta] is
    [skimage.transform.iradon(radon_image, theta=theta, circle=True)].
    Both return a new array and leave their arguments as they are. *)

Record Externals := {
  rotate : matrix -> float -> matrix;
  iradon : matrix -> vector -> result matrix
}.

(** [rect r c m]: [m] has shape [(r, c)]. *)
Definition rect (r c : nat) (m : matrix) : Prop :=
  length m = r /\ Forall (fun row => length row = c) m.

(** What the reconstruction relies on from the two calls: [reshape=False]
    keeps the shape, interpolating a field of zeros (with the constant
    fill value 0) gives zeros, and with [circle=True] the reconstruction is
    square, its side the number of rows of [radon_image]. *)
Record Contract (E : Externals) : Prop := {
  rotate_shape : forall r c m a, rect r c m -> rect r c (rotate E m a);
  rotate_zeros : forall r c a, rotate E (np.zeros r c) a = np.zeros r c;
  iradon_shape : forall ri th img,
    iradon E ri th = Ok img -> rect (length ri) (length ri) img
}.

(** ** [EST_reco] *)

Section Reconstruction.

Context (E : Externals).

(** Lines 77-80: the profile cut or padded to [num_detectors] samples. *)
Definition fit (num_detectors : nat) (projection : vector) : vector :=
  if decide (num_detectors < length projection) then
    take num_detectors projection
  else if decide (length projection < num_detectors) then
    projection ++ replicate (num_detectors - length projection) 0%float
  else projection.

(** [m[i, :] = row]: an index past the last row is an [IndexError]. *)
Definition set_row (i : nat) (row : vector) (m : matrix) : result matrix :=
  if decide (i < length m) then Ok (<[i := row]> m) else Raise IndexError.

(** [m[i, :]]. *)
Definition get_row (i : nat) (m : matrix) : result vector :=
  match m !! i with
  | Some row => Ok row
  | None => Raise IndexError
  end.

(** Lines 74-80: the projection of the image at one angle. *)
Definition project_angle (estimated_image : matrix) (num_detectors : nat)
    (angle : float) : vector :=
  let rotated_image := rotate E estimated_image angle in
  let projection := np.sum_axis0 rotated_image in
  fit num_detectors projection.

(** Lines 71-82. *)
Definition forward_projection (theta : vector) (estimated_image : matrix)
    (num_projections num_detectors : nat) : result matrix :=
  for_enumerate
    (fun i angle projections =>
       set_row i (project_angle estimated_image num_detectors angle) projections)
    0 theta (np.zeros num_projections num_detectors).

(** Line 101, [expanded_error[:, :num_detectors] = row.reshape(-1,
    num_detectors)]: the slice is as wide as the image allows, and the one
    row is broadcast over it only if it is as wide as the slice, or one
    sample wide; no row of width 0 can be reshaped. *)
Definition assign_leading_columns (num_detectors : nat) (row : vector)
    (expanded_error : matrix) : result matrix :=
  if decide (num_detectors = 0) then Raise ValueError
  else if decide (num_detectors <= length (hd [] expanded_error)) then
    Ok (map (fun r => row ++ drop num_detectors r) expanded_error)
  else if decide (num_detectors = 1) then Ok expanded_error
  else Raise ValueError.

(** Lines 98-103. *)
Definition backprojection (theta : vector) (error estimated_image : matrix)
    (num_detectors : nat) : result matrix :=
  for_enumerate
    (fun i angle backprojected_error =>
       row ← get_row i error;
       expanded_error ←
         assign_leading_columns num_detectors row (np.zeros_like estimated_image);
       let rotated_error := rotate E expanded_error (- angle)%float in
       Ok (np.add backprojected_error rotated_error))
    0 theta (np.zeros_like estimated_image).

(** Lines 106-107. *)
Definition normalize (backprojected_error : matrix) : result matrix :=
  m ← np.max (np.abs backprojected_error);
  if negb (m =? 0)%float then
    Ok (map (map (fun x => (x / m)%float)) backprojected_error)
  else Ok backprojected_error.

(** Line 110. *)
Definition gradient_update (learning_rate : float) (num_projections : nat)
    (estimated_image backprojected_error : matrix) : matrix :=
  zip_with
    (zip_with (fun x b =>
       (x + learning_rate * (b / np.float_of_nat num_projections))%float))
    estimated_image backprojected_error.

(** Lines 85-86: the residual and its largest magnitude. *)
Definition residual (sinogram : matrix) (theta : vector)
    (num_projections num_detectors : nat)
    (estimated_image : matrix) : result (matrix * float) :=
  projections ← forward_projection theta estimated_image num_projections num_detectors;
  let error := np.subtract sinogram projections in
  max_error ← np.max (np.abs error);
  Ok (error, max_error).

(** Line 91. *)
Definition plateau (previous_error max_error tolerance : float) : bool :=
  (PrimFloat.abs (previous_error - max_error) <? tolerance)%float.

(** Lines 97-111: what an iteration does once it has not stopped. *)
Definition update (theta : vector) (num_projections num_detectors : nat)
    (learning_rate : float) (estimated_image error : matrix) : result matrix :=
  backprojected_error ← backprojection theta error estimated_image num_detectors;
  backprojected_error ← normalize backprojected_error;
  let estimated_image :=
    gradient_update learning_rate num_projections estimated_image backprojected_error in
  Ok (np.maximum estimated_image 0%float).

(** One pass through the body of the loop: it leaves the loop ([Break])
    or goes on with a new image and a new [previous_error]. *)
Inductive step :=
| Break
| Continue (estimated_image : matrix) (previous_error : float).

Definition iteration (sinogram : matrix) (theta : vector)
    (num_projections num_detectors : nat) (tolerance learning_rate : float)
    (estimated_image : matrix) (previous_error : float) : result step :=
  '(error, max_error) ← residual sinogram theta num_projections num_detectors
                          estimated_image;
  if plateau previous_error max_error tolerance then Ok Break
  else
    estimated_image ← update theta num_projections num_detectors learning_rate
                        estimated_image error;
    Ok (Continue estimated_image max_error).

(** Lines 69-113: [for iteration in range(num_iterations)]. *)
Fixpoint EST_loop (sinogram : matrix) (theta : vector)
    (num_projections num_detectors : nat) (tolerance learning_rate : float)
    (num_iterations : nat)
    (estimated_image : matrix) (previous_error : float) : result matrix :=
  match num_iterations with
  | 0 => Ok estimated_image
  | S n =>
      st ← iteration sinogram theta num_projections num_detectors
             tolerance learning_rate estimated_image previous_error;
      match st with
      | Break => Ok estimated_image
      | Continue estimated_image' previous_error' =>
          EST_loop sinogram theta num_projections num_detectors
            tolerance learning_rate n estimated_image' previous_error'
      end
  end.

(** Lines 61-67 and the loop. [initial_guess.copy()] is the same value. *)
Definition EST_reco (sinogram : matrix) (theta : vector) (num_iterations : nat)
    (tolerance learning_rate : float) : result matrix :=
  let '(num_projections, num_detectors) := np.shape sinogram in
  initial_guess ← iradon E (np.rot90_neg1 sinogram) theta;
  EST_loop sinogram theta num_projections num_detectors
    tolerance learning_rate num_iterations initial_guess infinity.

End Reconstruction.

(** The default arguments of [EST_reco]: 200, and the binary64 numbers
    nearest to 1e-5 and to 0.00005. *)
Definition default_num_iterations : nat := 200.
Definition default_tolerance : float := 0x1.4f8b588e368f1p-17%float.
Definition default_learning_rate : float := 0x1.a36e2eb1c432dp-15%float.

(** ** Predicates on images *)

(** [x >= 0], or [x] is NaN (which [np.maximum] lets through). *)
Definition nonneg_or_nan (x : float) : bool :=
  (0 <=? x)%float || PrimFloat.is_nan x.

(** [x] is [+0.0] or positive: clipping at 0 and adding a zero leave it
    bit for bit as it is. *)
Definition zero_or_positive (x : float) : bool :=
  (0 <? x)%float || PrimFloat.Leibniz.eqb x 0%float.

Definition all_entries (p : float -> bool) (m : matrix) : Prop :=
  Forall (Forall (fun x => p x = true)) m.

(** ** [EST_reco] with its arrays as objects

    The same lines once more, now with the arrays that are written in place
    ([projections], [expanded_error], [backprojected_error],
    [estimated_image]) and the two arguments as objects of a heap: a name
    holds the address of an array, [np.zeros] and the like allocate, and an
    assignment to a slice, [+=] and [/=] overwrite the object they are
    applied to. Arrays that are only read after they are made ([error], the
    rotated arrays) stay values. *)
Module Imp.

Inductive ndarray :=
| Arr1 (v : vector)
| Arr2 (m : matrix).

Abbreviation heap := (list ndarray).
Abbreviation loc := nat.

Definition alloc (a : ndarray) (h : heap) : loc * heap := (length h, h ++ [a]).

Definition store (l : loc) (a : ndarray) (h : heap) : heap := <[l := a]> h.

Definition load1 (l : loc) (h : heap) : result vector :=
  match h !! l with
  | Some (Arr1 v) => Ok v
  | _ => Raise ValueError
  end.

Definition load2 (l : loc) (h : heap) : result matrix :=
  match h !! l with
  | Some (Arr2 m) => Ok m
  | _ => Raise ValueError
  end.

Section Reconstruction.

Context (E : Externals).

(** Lines 71-82. *)
Definition forward_projection (theta estimated_image : loc)
    (num_projections num_detectors : nat) (h : heap) : result (loc * heap) :=
  let '(projections, h) := alloc (Arr2 (np.zeros num_projections num_detectors)) h in
  angles ← load1 theta h;
  h ← for_enumerate
        (fun i angle h =>
           img ← load2 estimated_image h;
           let projection := project_angle E img num_detectors angle in
           m ← load2 projections h;
           m ← set_row i projection m;
           Ok (store projections (Arr2 m) h))
        0 angles h;
  Ok (projections, h).

(** Lines 98-103. *)
Definition backprojection (theta : loc) (error : matrix)
    (estimated_image : loc) (num_detectors : nat) (h : heap)
    : result (loc * heap) :=
  img ← load2 estimated_image h;
  let '(backprojected_error, h) := alloc (Arr2 (np.zeros_like img)) h in
  angles ← load1 theta h;
  h ← for_enumerate
        (fun i angle h =>
           img ← load2 estimated_image h;
           let '(expanded_error, h) := alloc (Arr2 (np.zeros_like img)) h in
           row ← get_row i error;
           z ← load2 expanded_error h;
           z ← assign_leading_columns num_detectors row z;
           let h := store expanded_error (Arr2 z) h in
           z ← load2 expanded_error h;
           let rotated_error := rotate E z (- angle)%float in
           b ← load2 backprojected_error h;
           Ok (store backprojected_error (Arr2 (np.add b rotated_error)) h))
        0 angles h;
  Ok (backprojected_error, h).

(** Lines 106-107. *)
Definition normalize (backprojected_error : loc) (h : heap) : result heap :=
  b ← load2 backprojected_error h;
  m ← np.max (np.abs b);
  if negb (m =? 0)%float then
    Ok (store backprojected_error (Arr2 (map (map (fun x => (x / m)%float)) b)) h)
  else Ok h.

Inductive step :=
| Break
| Continue (estimated_image : loc) (previous_error : float).

Definition iteration (sinogram theta : loc)
    (num_projections num_detectors : nat) (tolerance learning_rate : float)
    (estimated_image : loc) (previous_error : float) (h : heap)
    : result (step * heap) :=
  '(projections, h) ← forward_projection theta estimated_image
                        num_projections num_detectors h;
  s ← load2 sinogram h;
  p ← load2 projections h;
  let error := np.subtract s p in
  max_error ← np.max (np.abs error);
  if plateau previous_error max_error tolerance then Ok (Break, h)
  else
    '(backprojected_error, h) ← backprojection theta error estimated_image
                                  num_detectors h;
    h ← normalize backprojected_error h;
    img ← load2 estimated_image h;
    b ← load2 backprojected_error h;
    let h := store estimated_image
               (Arr2 (gradient_update learning_rate num_projections img b)) h in
    img ← load2 estimated_image h;
    let '(estimated_image, h) := alloc (Arr2 (np.maximum img 0%float)) h in
    Ok (Continue estimated_image max_error, h).

Fixpoint EST_loop (sinogram theta : loc)
    (num_projections num_detectors : nat) (tolerance learning_rate : float)
    (num_iterations : nat) (estimated_image : loc) (previous_error : float)
    (h : heap) : result (loc * heap) :=
  match num_iterations with
  | 0 => Ok (estimated_image, h)
  | S n =>
      '(st, h) ← iteration sinogram theta num_projections num_detectors
                   tolerance learning_rate estimated_image previous_error h;
      match st with
      | Break => Ok (estimated_image, h)
      | Continue estimated_image' previous_error' =>
          EST_loop sinogram theta num_projections num_detectors
            tolerance learning_rate n estimated_image' previous_error' h
      end
  end.

(** The call [EST_reco(sinogram, theta, ...)] on the objects at the
    addresses [sinogram] and [theta]: the address of the returned array and
    the heap the call leaves. *)
Definition EST_reco (sinogram theta : loc) (num_iterations : nat)
    (tolerance learning_rate : float) (h : heap) : result (loc * heap) :=
  s ← load2 sinogram h;
  angles ← load1 theta h;
  let '(num_projections, num_detectors) := np.shape s in
  guess ← iradon E (np.rot90_neg1 s) angles;
  let '(initial_guess, h) := alloc (Arr2 guess) h in
  copy ← load2 initial_guess h;
  let '(estimated_image, h) := alloc (Arr2 copy) h in
  EST_loop sinogram theta num_projections num_detectors
    tolerance learning_rate num_iterations estimated_image infinity h.

End Reconstruction.

End Imp.

(** ** [EST_Angles] *)

Module Angles.

(** [np.linspace(start, stop, num)], as numpy computes it: the numbers
    [0, 1, ..., num - 1] as [float64], multiplied by
    [step = (stop - start) / (num - 1)] (divided by [num - 1] and
    multiplied by [stop - start] when the step has underflowed to 0;
    multiplied by [stop - start] when there is no step), then [start]
    added to each, and the last sample, if there are two or more, set to
    [stop]. Every operation rounds. *)
Definition linspace (start stop : float) (num : nat) : vector :=
  let div := num - 1 in
  let delta := (stop - start)%float in
  let y := map np.float_of_nat (seq 0 num) in
  let y :=
    if decide (0 < div) then
      let step := (delta / np.float_of_nat div)%float in
      if (step =? 0)%float then
        map (fun k => (k / np.float_of_nat div * delta)%float) y
      else map (fun k => (k * step)%float) y
    else map (fun k => (k * delta)%float) y in
  let y := map (fun v => (v + start)%float) y in
  if decide (1 < num) then <[num - 1 := stop]> y else y.

(** Line 17, [np.arcsin(np.linspace(-1, 1, num_projections)) * 180 / np.pi]. *)
Definition EST_Angles (arcsin : float -> float) (num_projections : nat) : vector :=
  map (fun x => (arcsin x * 180 / np.pi)%float)
    (linspace (-1)%float 1%float num_projections).

End Angles.

(** Stand-ins for the two library calls, for running the loop on small
    inputs: a rotation by the angle 0, which leaves the array as it is, and
    an unfiltered backprojection of the first projection alone. *)
Module Mock.

Definition rotate (m : matrix) (angle : float) : matrix := m.

Definition iradon (radon_image : matrix) (theta : vector) : result matrix :=
  Ok (replicate (length radon_image) (map (hd 0%float) radon_image)).

Definition externals : Externals := Build_Externals rotate iradon.

(** The values of [np.arcsin] at the five samples of [EST_Angles(5)],
    which are -1, -0.5, 0, 0.5 and 1: plus and minus
    1.5707963267948966 and 0.5235987755982989, and 0. No other argument is
    used in the runs below; the stand-in answers NaN there. *)
Definition arcsin (x : float) : float :=
  if (x =? -1)%float then (-0x1.921fb54442d18p+0)%float
  else if (x =? -0.5)%float then (-0x1.0c152382d7366p-1)%float
  else if (x =? 0)%float then x
  else if (x =? 0.5)%float then 0x1.0c152382d7366p-1%float
  else if (x =? 1)%float then 0x1.921fb54442d18p+0%float
  else nan.

End Mock.

(** ** Reading a run on objects against a run on values *)

(** What a run on objects does, read against a run on values: the same
    exception, or a result related by [R]. *)
Definition refines {A B : Type} (R : A -> B -> Prop)
    (imp : result A) (pure : result B) : Prop :=
  match pure with
  | Ok b => exists a, imp = Ok a /\ R a b
  | Raise e => imp = Raise e
  end.

(** How the heap of a pass relates to the pass on values: a pass that
    stops leaves every object of [h] as it was; a pass that goes on leaves
    them as they were but for [est], which it has updated in place, and
    holds the new image in a new object. *)
Definition pass_ok (h : Imp.heap) (est : Imp.loc)
    (r : Imp.step * Imp.heap) (st : step) : Prop :=
  let '(st', h') := r in
  match st with
  | Break =>
      st' = Imp.Break /\ forall k, k < length h -> h' !! k = h !! k
  | Continue img' prev' =>
      exists est', st' = Imp.Continue est' prev' /\
        h' !! est' = Some (Imp.Arr2 img') /\ length h <= est' /\
        forall k, k < length h -> k <> est -> h' !! k = h !! k
  end.

(** A call on two objects, [[[1]]] at address 0 and [[0]] at address 1,
    and the address and heap it returns. *)
Definition demo_heap : Imp.heap :=
  [Imp.Arr2 [[1%float]]; Imp.Arr1 [0%float]].

Definition demo_result : Imp.loc * Imp.heap :=
  Eval vm_compute in
    match Imp.EST_reco Mock.externals 0 1 2 default_tolerance
            default_learning_rate demo_heap with
    | Ok r => r
    | Raise _ => (0, [])
    end.

(** ** The rest of the notebook *)

(** [np.rot90(m, 1)], which numpy computes as [transpose(flip(m, 1))]. *)
Definition rot90 (m : matrix) : matrix := np.transpose (map (@rev float) m).

(** Lines 115-117. [radon phantom theta] is
    [skimage.transform.radon(phantom, theta=theta, circle=True)]. *)
Definition make_sino (radon : matrix -> vector -> matrix)
    (phantom : matrix) (theta : vector) : matrix :=
  let sinogram := radon phantom theta in
  rot90 sinogram.

(** Lines 129-135 of the script: the two reconstructions it plots, from a
    phantom and angles made by the lines before. *)
Definition main_learning_rate : float := 0x1.0624dd2f1a9fcp-11%float.

Definition main_reconstructions (E : Externals)
    (radon : matrix -> vector -> matrix) (phantom : matrix) (theta : vector)
    : result (matrix * matrix) :=
  let sinogram := make_sino radon phantom theta in
  reconstructed_image_est ←
    EST_reco E sinogram theta 500 default_tolerance main_learning_rate;
  reconstructed_image_fbp ← iradon E (np.rot90_neg1 sinogram) theta;
  Ok (reconstructed_image_est, reconstructed_image_fbp).

(** A stand-in for [radon], for running the script on small inputs: every
    projection is the one at the angle 0, the sums of the columns. *)
Definition mock_radon (phantom : matrix) (theta : vector) : matrix :=
  np.transpose (map (fun _ : float => np.sum_axis0 phantom) theta).

(** *** What [EST_reco] prints

    The lines 88 and 92 write: the progress of each pass and, once, that
    the loop has converged. A run is what it has printed and how it ended. *)
Inductive line :=
| Progress (iteration num_iterations : nat) (max_error : float)
| Convergence (iteration : nat).

Fixpoint EST_loop_printing (E : Externals) (sinogram : matrix) (theta : vector)
    (num_projections num_detectors : nat) (tolerance learning_rate : float)
    (num_iterations iteration remaining : nat)
    (estimated_image : matrix) (previous_error : float)
    : list line * result matrix :=
  match remaining with
  | 0 => ([], Ok estimated_image)
  | S k =>
      match residual E sinogram theta num_projections num_detectors
              estimated_image with
      | Raise e => ([], Raise e)
      | Ok (error, max_error) =>
          let progress := Progress (iteration + 1) num_iterations max_error in
          if plateau previous_error max_error tolerance then
            ([progress; Convergence (iteration + 1)], Ok estimated_image)
          else
            match update E theta num_projections num_detectors learning_rate
                    estimated_image error with
            | Raise e => ([progress], Raise e)
            | Ok estimated_image' =>
                let '(printed, r) :=
                  EST_loop_printing E sinogram theta num_projections
                    num_detectors tolerance learning_rate num_iterations
                    (S iteration) k estimated_image' max_error in
                (progress :: printed, r)
            end
      end
  end.

Definition EST_reco_printing (E : Externals) (sinogram : matrix) (theta : vector)
    (num_iterations : nat) (tolerance learning_rate : float)
    : list line * result matrix :=
  let '(num_projections, num_detectors) := np.shape sinogram in
  match iradon E (np.rot90_neg1 sinogram) theta with
  | Raise e => ([], Raise e)
  | Ok initial_guess =>
      EST_loop_printing E sinogram theta num_projections num_detectors
        tolerance learning_rate num_iterations 0 num_iterations
        initial_guess infinity
  end.

(** The progress lines of the passes 1, 2, ... with the given errors. *)
Definition progress_lines (num_iterations first : nat) (errors : list float)
    : list line :=
  imap (fun i m => Progress (first + i) num_iterations m) errors.

(** *** [make_phantom]

    The generator is read as the values it hands out: for each disk the two
    coordinates, the radius and the intensity. [disk center radius shape] is
    [skimage.draw.disk(center, radius, shape=shape)], the coordinates of
    the pixels of the disk. *)
Record draw := {
  draw_x : nat;
  draw_y : nat;
  draw_radius : nat;
  draw_intensity : float
}.

(** The scalar loop of [np.clip]: [min(max(x, lo), hi)], each letting a NaN
    [x] through. *)
Definition clip_scalar (x lo hi : float) : float :=
  let y := if PrimFloat.is_nan x then x else if (lo <? x)%float then x else lo in
  if PrimFloat.is_nan y then y else if (y <? hi)%float then y else hi.

Definition np_clip (m : matrix) (lo hi : float) : matrix :=
  map (map (fun x => clip_scalar x lo hi)) m.

Definition in_bounds (m : matrix) (rc : nat * nat) : bool :=
  match m !! rc.1 with
  | Some row => bool_decide (rc.2 < length row)
  | None => false
  end.

(** Line 42, [phantom[rr, cc] += intensity]: every listed pixel is raised
    once; a coordinate outside the array is an [IndexError]. *)
Definition add_at (coords : list (nat * nat)) (intensity : float)
    (phantom : matrix) : result matrix :=
  if forallb (in_bounds phantom) coords then
    Ok (imap (fun r row =>
          imap (fun c x =>
            if bool_decide ((r, c) ∈ coords) then (x + intensity)%float else x)
            row) phantom)
  else Raise IndexError.

(** Lines 33-43. [rng.integers(low, high)] raises a [ValueError] when
    [low >= high]. *)
Fixpoint make_phantom_loop
    (disk : nat * nat -> nat -> nat * nat -> list (nat * nat))
    (size : nat) (draws : list draw) (phantom : matrix) : result matrix :=
  match draws with
  | [] => Ok phantom
  | d :: draws' =>
      if decide (size <= 0) then Raise ValueError
      else if decide (size / 10 <= 5) then Raise ValueError
      else
        let coords := disk (draw_x d, draw_y d) (draw_radius d) (np.shape phantom) in
        phantom ← add_at coords (draw_intensity d) phantom;
        make_phantom_loop disk size draws' (np_clip phantom 0%float 1%float)
  end.

(** Lines 19-45, for [num_disks = length draws]. *)
Definition make_phantom
    (disk : nat * nat -> nat -> nat * nat -> list (nat * nat))
    (size : nat) (draws : list draw) : result matrix :=
  make_phantom_loop disk size draws (np.zeros size size).

(** What [disk] is relied on for: with [shape] given, every coordinate it
    returns lies inside that shape. *)
Definition disk_in_shape
    (disk : nat * nat -> nat -> nat * nat -> list (nat * nat)) : Prop :=
  forall center radius rows cols,
    Forall (fun rc => rc.1 < rows /\ rc.2 < cols) (disk center radius (rows, cols)).

(** [m[r, c]]. *)
Definition pixel (m : matrix) (r c : nat) : option float :=
  row ← m !! r; row !! c.

(** A stand-in for [disk]: the centre alone, when it lies inside the
    shape. *)
Definition mock_disk (center : nat * nat) (radius : nat) (shape : nat * nat)
    : list (nat * nat) :=
  if bool_decide (center.1 < shape.1 /\ center.2 < shape.2) then [center] else [].

(** Two overlapping disks (each the stand-in's single pixel (1, 1)) of
    intensities 0.5 and 0.75 on a phantom of side 60. *)
Definition demo_draws : list draw :=
  [Build_draw 1 1 5 0x1p-1%float; Build_draw 1 1 6 0x1.8p-1%float].

Definition demo_phantom : matrix :=
  Eval vm_compute in
    match make_phantom mock_disk 60 demo_draws with
    | Ok phantom => phantom
    | Raise _ => []
    end.

(** [0 <= x <= 1], or [x] is NaN. *)
Definition unit_or_nan (x : float) : bool :=
  ((0 <=? x)%float && (x <=? 1)%float) || PrimFloat.is_nan x.

(** ** The divisions of the loop

    The loop of [EST_reco] once more, with the two divisions it makes
    (line 107, by the maximum, and line 110, by [num_projections]) done by
    [div] in place of [/]. Nothing else is changed: with [PrimFloat.div]
    for [div] these are the definitions above. *)
Section Divisions.

Context (E : Externals) (div : float -> float -> float).

(** Lines 106-107. *)
Definition normalize_with (backprojected_error : matrix) : result matrix :=
  m ← np.max (np.abs backprojected_error);
  if negb (m =? 0)%float then
    Ok (map (map (fun x => div x m)) backprojected_error)
  else Ok backprojected_error.

(** Line 110. *)
Definition gradient_update_with (learning_rate : float) (num_projections : nat)
    (estimated_image backprojected_error : matrix) : matrix :=
  zip_with
    (zip_with (fun x b =>
       (x + learning_rate * div b (np.float_of_nat num_projections))%float))
    estimated_image backprojected_error.

(** Lines 97-111. *)
Definition update_with (theta : vector) (num_projections num_detectors : nat)
    (learning_rate : float) (estimated_image error : matrix) : result matrix :=
  backprojected_error ← backprojection E theta error estimated_image num_detectors;
  backprojected_error ← normalize_with backprojected_error;
  let estimated_image :=
    gradient_update_with learning_rate num_projections estimated_image
      backprojected_error in
  Ok (np.maximum estimated_image 0%float).

Definition iteration_with (sinogram : matrix) (theta : vector)
    (num_projections num_detectors : nat) (tolerance learning_rate : float)
    (estimated_image : matrix) (previous_error : float) : result step :=
  '(error, max_error) ← residual E sinogram theta num_projections num_detectors
                          estimated_image;
  if plateau previous_error max_error tolerance then Ok Break
  else
    estimated_image ← update_with theta num_projections num_detectors learning_rate
                        estimated_image error;
    Ok (Continue estimated_image max_error).

Fixpoint EST_loop_with (sinogram : matrix) (theta : vector)
    (num_projections num_detectors : nat) (tolerance learning_rate : float)
    (num_iterations : nat)
    (estimated_image : matrix) (previous_error : float) : result matrix :=
  match num_iterations with
  | 0 => Ok estimated_image
  | S n =>
      st ← iteration_with sinogram theta num_projections num_detectors
             tolerance learning_rate estimated_image previous_error;
      match st with
      | Break => Ok estimated_image
      | Continue estimated_image' previous_error' =>
          EST_loop_with sinogram theta num_projections num_detectors
            tolerance learning_rate n estimated_image' previous_error'
      end
  end.

Definition EST_reco_with (sinogram : matrix) (theta : vector) (num_iterations : nat)
    (tolerance learning_rate : float) : result matrix :=
  let '(num_projections, num_detectors) := np.shape sinogram in
  initial_guess ← iradon E (np.rot90_neg1 sinogram) theta;
  EST_loop_with sinogram theta num_projections num_detectors
    tolerance learning_rate num_iterations initial_guess infinity.

End Divisions.

(** A division that answers NaN where the divisor is zero. *)
Definition div_or_nan (x d : float) : float :=
  if (d =? 0)%float then nan else (x / d)%float.

(** * Proofs *)

(** ** Binary64 facts *)

Section FloatFacts.

Local Open Scope float_scope.

Lemma plateau_inf (m tol : float) : plateau infinity m tol = false.
Proof.
  unfold plateau.
  rewrite FloatAxioms.ltb_spec, FloatAxioms.abs_spec, FloatAxioms.sub_spec.
  change (Prim2SF infinity) with (S754_infinity false).
  unfold SF64sub, SFsub, SFltb.
  destruct (Prim2SF m) as [s|s| |s e x]; try destruct s; simpl;
    destruct (Prim2SF tol) as [s'|s'| |s' e' x']; try destruct s'; reflexivity.
Qed.

Lemma maximum_scalar_0 (x : float) :
  (0 <=? np.maximum_scalar x 0) = true \/ is_nan (np.maximum_scalar x 0) = true.
Proof.
  unfold np.maximum_scalar.
  destruct (0 <=? x) eqn:Hx; simpl; [now left|].
  destruct (is_nan x) eqn:Hn; [now right|]. now left.
Qed.

Lemma sub_diag (x : float) : is_finite x = true -> x - x = 0.
Proof.
  intros H. apply Prim2SF_inj. rewrite FloatAxioms.sub_spec.
  unfold is_finite, is_nan, is_infinity in H.
  rewrite !FloatAxioms.eqb_spec, FloatAxioms.abs_spec in H.
  change (Prim2SF infinity) with (S754_infinity false) in H.
  change (Prim2SF 0) with (S754_zero false).
  destruct (Prim2SF x) as [s|s| |s m e]; try destruct s;
    try discriminate; try reflexivity;
    unfold SF64sub, SFsub; rewrite Z.sub_diag; reflexivity.
Qed.

Lemma zero_or_positive_spec (x : float) :
  zero_or_positive x = true ->
  Prim2SF x <> S754_zero true /\ (0 <=? x) = true.
Proof.
  unfold zero_or_positive. intros H. apply orb_true_iff in H as [H|H].
  - rewrite FloatAxioms.ltb_spec in H. rewrite FloatAxioms.leb_spec.
    change (Prim2SF 0) with (S754_zero false) in *.
    unfold SFltb, SFleb in *.
    destruct (Prim2SF x) as [s|s| |s m e]; try destruct s; try discriminate;
      split; try discriminate; reflexivity.
  - apply FloatAxioms.Leibniz.eqb_spec in H. subst x. split; [discriminate|reflexivity].
Qed.

Lemma add_zero (x d : float) (s : bool) :
  Prim2SF d = S754_zero s -> zero_or_positive x = true -> x + d = x.
Proof.
  intros Hd Hx. apply zero_or_positive_spec in Hx as [Hx _].
  apply Prim2SF_inj. rewrite FloatAxioms.add_spec, Hd.
  unfold SF64add, SFadd.
  destruct (Prim2SF x) as [sx|sx| |sx m e]; try reflexivity.
  destruct sx; [congruence|]. destruct s; reflexivity.
Qed.

Lemma zero_step (lr p : float) :
  is_finite lr = true -> (0 <? p) = true ->
  exists s, Prim2SF (lr * (0 / p)) = S754_zero s.
Proof.
  intros Hl Hp.
  rewrite FloatAxioms.mul_spec, FloatAxioms.div_spec.
  rewrite FloatAxioms.ltb_spec in Hp.
  unfold is_finite, is_nan, is_infinity in Hl.
  rewrite !FloatAxioms.eqb_spec, FloatAxioms.abs_spec in Hl.
  change (Prim2SF infinity) with (S754_infinity false) in Hl.
  change (Prim2SF 0) with (S754_zero false) in *.
  unfold SFltb in Hp.
  destruct (Prim2SF p) as [sp|sp| |sp mp ep]; try destruct sp; try discriminate;
    destruct (Prim2SF lr) as [sl|sl| |sl ml el]; try destruct sl; try discriminate;
    simpl; eauto.
Qed.

Lemma maximum_scalar_keep (x : float) :
  zero_or_positive x = true -> np.maximum_scalar x 0 = x.
Proof.
  intros Hx. apply zero_or_positive_spec in Hx as [_ Hx].
  unfold np.maximum_scalar. now rewrite Hx.
Qed.

End FloatFacts.

(** ** Counts as binary64 numbers

    The conversion of a count from 1 to 2^63 - 1 rounds to a positive
    finite number with a 53-digit mantissa, never to zero, to an infinity
    or to NaN; and 2 divided by it is positive and finite as well.
    Rounding shifts the digits of a number to the right by fewer places
    than it has digits, and the exponents stay far below the largest. *)

Section Conversion.

Local Open Scope Z_scope.

Lemma shr_1_ge (mrs : shr_record) (j : Z) :
  0 <= j -> 2 ^ (1 + j) <= shr_m mrs -> 2 ^ j <= shr_m (shr_1 mrs).
Proof.
  intros Hj. rewrite Z.pow_add_r, Z.pow_1_r by lia.
  pose proof (Z.pow_pos_nonneg 2 j ltac:(lia) Hj) as Hpos.
  destruct mrs as [m r s]. destruct m as [|[q|q|]|q]; simpl; lia.
Qed.

Lemma iter_shr_1_ge (p : positive) :
  forall (mrs : shr_record) (j : Z),
    0 <= j -> 2 ^ (Z.pos p + j) <= shr_m mrs ->
    2 ^ j <= shr_m (SpecFloat.iter_pos shr_1 p mrs).
Proof.
  induction p as [p IH|p IH|]; intros mrs j Hj H; simpl.
  - apply IH; [lia|]. apply IH; [lia|]. apply shr_1_ge; [lia|].
    replace (1 + (Z.pos p + (Z.pos p + j))) with (Z.pos p~1 + j) by lia. exact H.
  - apply IH; [lia|]. apply IH; [lia|].
    replace (Z.pos p + (Z.pos p + j)) with (Z.pos p~0 + j) by lia. exact H.
  - apply shr_1_ge; [lia|exact H].
Qed.

Lemma digits2_pos_le (p : positive) : 2 ^ (Z.pos (digits2_pos p) - 1) <= Z.pos p.
Proof.
  induction p as [p IH|p IH|]; simpl digits2_pos.
  - rewrite Pos2Z.inj_succ.
    replace (Z.succ (Z.pos (digits2_pos p)) - 1) with (1 + (Z.pos (digits2_pos p) - 1)) by lia.
    rewrite Z.pow_add_r, Z.pow_1_r by lia. lia.
  - rewrite Pos2Z.inj_succ.
    replace (Z.succ (Z.pos (digits2_pos p)) - 1) with (1 + (Z.pos (digits2_pos p) - 1)) by lia.
    rewrite Z.pow_add_r, Z.pow_1_r by lia. lia.
  - simpl. lia.
Qed.

Lemma shr_fexp_positive (q : positive) (e : Z) (l : location) :
  SpecFloat.emin prec emax <= e ->
  0 < shr_m (fst (SpecFloat.shr_fexp prec emax (Z.pos q) e l)) /\
  SpecFloat.emin prec emax <= snd (SpecFloat.shr_fexp prec emax (Z.pos q) e l).
Proof.
  intros He. unfold SpecFloat.shr_fexp, shr.
  assert (Hm : shr_m (shr_record_of_loc (Z.pos q) l) = Z.pos q)
    by (destruct l as [|[]]; reflexivity).
  pose proof (digits2_pos_le q) as Hd.
  destruct (SpecFloat.fexp prec emax (Zdigits2 (Z.pos q) + e) - e) as [|p|p] eqn:Hn; simpl;
    [rewrite Hm; lia| |rewrite Hm; lia].
  unfold SpecFloat.fexp, SpecFloat.emin, prec, emax in *. simpl Zdigits2 in Hn. split; [|lia].
  assert (Hp : Z.pos p <= Z.pos (digits2_pos q) - 1) by lia.
  apply Z.lt_le_trans with (2 ^ 0); [reflexivity|].
  apply iter_shr_1_ge; [lia|]. rewrite Hm, Z.add_0_r.
  etransitivity; [|exact Hd]. apply Z.pow_le_mono_r; lia.
Qed.

Lemma round_nearest_even_ge (m : Z) (l : location) : m <= round_nearest_even m l.
Proof.
  destruct l as [|[]]; simpl; try lia. destruct (Z.even m); lia.
Qed.

Lemma shr_1_le (mrs : shr_record) :
  0 <= shr_m mrs -> 0 <= shr_m (shr_1 mrs) <= shr_m mrs.
Proof.
  destruct mrs as [m r s]. destruct m as [|[q|q|]|q]; simpl; lia.
Qed.

Lemma iter_shr_1_le (p : positive) :
  forall mrs : shr_record,
    0 <= shr_m mrs -> 0 <= shr_m (SpecFloat.iter_pos shr_1 p mrs) <= shr_m mrs.
Proof.
  induction p as [p IH|p IH|]; intros mrs H; simpl.
  - pose proof (shr_1_le mrs H) as H1.
    pose proof (IH _ (proj1 H1)) as H2. pose proof (IH _ (proj1 H2)) as H3. lia.
  - pose proof (IH _ H) as H2. pose proof (IH _ (proj1 H2)) as H3. lia.
  - now apply shr_1_le.
Qed.

Lemma digits2_pos_lt (p : positive) : Z.pos p < 2 ^ Z.pos (digits2_pos p).
Proof.
  induction p as [p IH|p IH|]; simpl digits2_pos;
    rewrite ?Pos2Z.inj_succ, ?Z.pow_succ_r by lia; lia.
Qed.

Lemma digits2_pos_bound (p : positive) (K : Z) :
  Z.pos p < 2 ^ K -> 0 <= K -> Z.pos (digits2_pos p) <= K.
Proof.
  intros Hp HK. pose proof (digits2_pos_le p) as Hd.
  assert (H : 2 ^ (Z.pos (digits2_pos p) - 1) < 2 ^ K) by lia.
  apply Z.pow_lt_mono_r_iff in H; lia.
Qed.

Lemma shr_fexp_bounds (q : positive) (e : Z) (l : location) (K : Z) :
  SpecFloat.emin prec emax <= e -> Z.pos q < 2 ^ K -> 0 <= K ->
  0 < shr_m (fst (SpecFloat.shr_fexp prec emax (Z.pos q) e l)) <= Z.pos q /\
  e <= snd (SpecFloat.shr_fexp prec emax (Z.pos q) e l) <= Z.max e (e + K - 53).
Proof.
  intros He Hq HK.
  destruct (shr_fexp_positive q e l He) as [Hpos _]. split; [split; [exact Hpos|]|].
  - unfold SpecFloat.shr_fexp, shr.
    assert (Hm : shr_m (shr_record_of_loc (Z.pos q) l) = Z.pos q)
      by (destruct l as [|[]]; reflexivity).
    destruct (SpecFloat.fexp prec emax (Zdigits2 (Z.pos q) + e) - e) as [|p|p]; simpl;
      try (rewrite Hm; lia).
    pose proof (iter_shr_1_le p (shr_record_of_loc (Z.pos q) l)) as H. lia.
  - pose proof (digits2_pos_bound q K Hq HK) as Hd.
    unfold SpecFloat.shr_fexp, shr.
    destruct (SpecFloat.fexp prec emax (Zdigits2 (Z.pos q) + e) - e) as [|p|p] eqn:Hn;
      simpl; unfold SpecFloat.fexp, SpecFloat.emin, prec, emax in *;
      simpl Zdigits2 in Hn; lia.
Qed.

Lemma round_nearest_even_le (m : Z) (l : location) : round_nearest_even m l <= m + 1.
Proof.
  destruct l as [|[]]; simpl; try lia. destruct (Z.even m); lia.
Qed.

Lemma binary_round_aux_finite (sx : bool) (q : positive) (e : Z) (l : location) (K : Z) :
  SpecFloat.emin prec emax <= e -> Z.pos q < 2 ^ K -> 0 <= K ->
  e + 2 * K + 2 <= 971 ->
  exists m e', SpecFloat.binary_round_aux prec emax sx (Z.pos q) e l = S754_finite sx m e'
               /\ e <= e'.
Proof.
  intros He Hq HK Hbound. unfold SpecFloat.binary_round_aux.
  destruct (shr_fexp_bounds q e l K He Hq HK) as [[H1 H1'] [H1e H1e']].
  destruct (SpecFloat.shr_fexp prec emax (Z.pos q) e l) as [mrs' e1]. simpl in *.
  pose proof (round_nearest_even_ge (shr_m mrs') (loc_of_shr_record mrs')) as Hr.
  pose proof (round_nearest_even_le (shr_m mrs') (loc_of_shr_record mrs')) as Hr'.
  destruct (round_nearest_even (shr_m mrs') (loc_of_shr_record mrs')) as [|q'|q'];
    try lia.
  assert (Hq' : Z.pos q' < 2 ^ (K + 1)).
  { rewrite Z.pow_add_r, Z.pow_1_r by lia. lia. }
  assert (He1 : SpecFloat.emin prec emax <= e1) by lia.
  destruct (shr_fexp_bounds q' e1 loc_Exact (K + 1) He1 Hq' ltac:(lia))
    as [[H2 _] [H2e H2e']].
  destruct (SpecFloat.shr_fexp prec emax (Z.pos q') e1 loc_Exact) as [mrs'' e2].
  simpl in *.
  destruct (shr_m mrs'') as [|m|m]; try lia.
  assert (Hle : (e2 <=? emax - prec) = true)
    by (apply Z.leb_le; unfold emax, prec; lia).
  rewrite Hle. exists m, e2. split; [reflexivity|lia].
Qed.

Lemma iter_xO (d q : positive) : Z.pos (Pos.iter xO q d) = Z.pos q * 2 ^ Z.pos d.
Proof.
  induction d as [|d IH] using Pos.peano_ind.
  - simpl. lia.
  - rewrite Pos.iter_succ, Pos2Z.inj_xO, IH, Pos2Z.inj_succ, Z.pow_succ_r by lia. lia.
Qed.

Lemma binary_round_finite (q : positive) :
  Z.pos q < 2 ^ 63 ->
  exists m e, SpecFloat.binary_round prec emax false q 0 = S754_finite false m e
              /\ -52 <= e.
Proof.
  intros Hq. unfold SpecFloat.binary_round, SpecFloat.shl_align.
  pose proof (digits2_pos_lt q) as Hd. pose proof (digits2_pos_bound q 63 Hq ltac:(lia)) as Hd'.
  destruct (SpecFloat.fexp prec emax (Z.pos (digits2_pos q) + 0) - 0) as [|d|d] eqn:Hn.
  - destruct (binary_round_aux_finite false q 0 loc_Exact 63) as (m & e & -> & He);
      unfold SpecFloat.emin, prec, emax; try lia. exists m, e. split; [reflexivity|lia].
  - destruct (binary_round_aux_finite false q 0 loc_Exact 63) as (m & e & -> & He);
      unfold SpecFloat.emin, prec, emax; try lia. exists m, e. split; [reflexivity|lia].
  - assert (Hdd : Z.pos d = 53 - Z.pos (digits2_pos q))
      by (unfold SpecFloat.fexp, SpecFloat.emin, prec, emax in Hn; lia).
    assert (Hq' : Z.pos (Pos.iter xO q d) < 2 ^ 53).
    { rewrite iter_xO, Hdd.
      replace 53 with (Z.pos (digits2_pos q) + (53 - Z.pos (digits2_pos q))) at 2 by lia.
      rewrite Z.pow_add_r by lia.
      apply Z.mul_lt_mono_pos_r; [apply Z.pow_pos_nonneg; lia|exact Hd]. }
    destruct (binary_round_aux_finite false (Pos.iter xO q d)
                (SpecFloat.fexp prec emax (Z.pos (digits2_pos q) + 0)) loc_Exact 53)
      as (m & e & -> & He);
      unfold SpecFloat.fexp, SpecFloat.emin, prec, emax in *; try lia.
    exists m, e. split; [reflexivity|lia].
Qed.

End Conversion.

Lemma float_of_nat_finite (n : nat) :
  1 <= n -> (Z.of_nat n < 2 ^ 63)%Z ->
  exists m e, Prim2SF (np.float_of_nat n) = S754_finite false m e /\
              (Z.pos m < 2 ^ 53)%Z /\ Zdigits2 (Z.pos m) = 53%Z /\ (-52 <= e <= 971)%Z.
Proof.
  intros Hn Hlt. pose proof (FloatAxioms.Prim2SF_valid (np.float_of_nat n)) as Hv.
  unfold np.float_of_nat in *.
  rewrite FloatAxioms.of_uint63_spec in *.
  rewrite Uint63.of_Z_spec, Z.mod_small in * by (change wB with (2 ^ 63)%Z; lia).
  destruct (Z.of_nat n) as [|q|q] eqn:Hq; try lia. simpl SpecFloat.binary_normalize in *.
  destruct (binary_round_finite q Hlt) as (m & e & Hr & He). rewrite Hr in *.
  exists m, e. split; [reflexivity|].
  simpl in Hv. unfold bounded, canonical_mantissa in Hv.
  apply andb_true_iff in Hv as [Hc Hb]. apply Z.eqb_eq in Hc. apply Z.leb_le in Hb.
  unfold SpecFloat.fexp, SpecFloat.emin, prec, emax in *.
  assert (Hd : Z.pos (digits2_pos m) = 53%Z) by lia.
  pose proof (digits2_pos_lt m) as Hm. rewrite Hd in Hm.
  split; [exact Hm|]. split; [exact Hd|lia].
Qed.

Lemma float_of_nat_positive (n : nat) :
  1 <= n -> (Z.of_nat n < 2 ^ 63)%Z ->
  (0 <? np.float_of_nat n)%float = true /\ (np.float_of_nat n =? 0)%float = false.
Proof.
  intros Hn Hlt. destruct (float_of_nat_finite n Hn Hlt) as (m & e & Hf & _).
  rewrite FloatAxioms.ltb_spec, FloatAxioms.eqb_spec, Hf. split; reflexivity.
Qed.

Lemma step_positive_finite (n : nat) :
  1 <= n -> (Z.of_nat n < 2 ^ 63)%Z ->
  (0 <? 2 / np.float_of_nat n)%float = true /\
  (2 / np.float_of_nat n <? infinity)%float = true.
Proof.
  intros Hn Hlt.
  destruct (float_of_nat_finite n Hn Hlt) as (m & e & Hf & Hm & Hd & He).
  rewrite !FloatAxioms.ltb_spec, FloatAxioms.div_spec, Hf.
  change (Prim2SF 2) with (S754_finite false 4503599627370496 (-51)).
  change (Prim2SF 0) with (S754_zero false).
  change (Prim2SF infinity) with (S754_infinity false).
  unfold SF64div, SFdiv, SFdiv_core_binary.
  rewrite Hd. change (Zdigits2 4503599627370496) with 53%Z.
  set (e' := Z.min _ _).
  assert (He' : (e' = Z.max (-104 - e) (-1074))%Z).
  { unfold e', SpecFloat.fexp, SpecFloat.emin, prec, emax. lia. }
  destruct (-51 - e - e')%Z as [|s|s] eqn:Hs; try lia.
  rewrite Z.shiftl_mul_pow2 by lia.
  pose proof (Z_div_mod (4503599627370496 * 2 ^ Z.pos s) (Z.pos m) ltac:(lia)) as Hdiv.
  destruct (Z.div_eucl (4503599627370496 * 2 ^ Z.pos s) (Z.pos m)) as [q r].
  destruct Hdiv as [Hq Hr].
  assert (Hs52 : (52 <= Z.pos s <= 53)%Z) by lia.
  assert (Hpow : (2 ^ 52 <= 2 ^ Z.pos s <= 2 ^ 53)%Z)
    by (split; apply Z.pow_le_mono_r; lia).
  assert (Hq1 : (1 <= q)%Z) by nia.
  assert (Hq2 : (q < 2 ^ 106)%Z) by nia.
  destruct q as [|q|q]; try lia.
  destruct (binary_round_aux_finite (xorb false false) q e' (new_location (Z.pos m) r) 106)
    as (m' & e'' & -> & _); unfold SpecFloat.emin, prec, emax; try lia.
  split; reflexivity.
Qed.

(** ** Shapes *)

Lemma lookup_map {A B} (f : A -> B) (l : list A) (i : nat) :
  map f l !! i = f <$> (l !! i).
Proof. revert i. induction l as [|a l IH]; intros [|i]; simpl; auto. Qed.

Lemma rect_zeros r c : rect r c (np.zeros r c).
Proof.
  split; [apply length_replicate|].
  apply Forall_replicate, length_replicate.
Qed.

Lemma rect_hd r c m : rect r c m -> 1 <= r -> length (hd [] m) = c.
Proof.
  intros [Hl Hf] Hr. destruct m as [|row m]; simpl in *; [lia|].
  now inversion Hf.
Qed.

Lemma rect_shape r c m : rect r c m -> 1 <= r -> np.shape m = (r, c).
Proof.
  intros H Hr. unfold np.shape. rewrite (rect_hd r c m H Hr).
  destruct H as [-> _]. reflexivity.
Qed.

Lemma rect_map r c (f : float -> float) m : rect r c m -> rect r c (map (map f) m).
Proof.
  intros [Hl Hf]. split; [now rewrite length_map|].
  apply Forall_map. eapply Forall_impl; [exact Hf|].
  intros row Hrow. simpl. now rewrite length_map.
Qed.

Lemma rect_zeros_like r c m : rect r c m -> rect r c (np.zeros_like m).
Proof. apply rect_map. Qed.

Lemma rect_zip_with r c (f : float -> float -> float) a b :
  rect r c a -> rect r c b -> rect r c (zip_with (zip_with f) a b).
Proof.
  intros [Hla Hfa] [Hlb Hfb]. split.
  - rewrite length_zip_with. lia.
  - apply Forall_lookup. intros i row Hi.
    apply lookup_zip_with_Some in Hi as (x & y & -> & Hx & Hy).
    rewrite length_zip_with.
    rewrite Forall_lookup in Hfa, Hfb.
    specialize (Hfa _ _ Hx). specialize (Hfb _ _ Hy). simpl in *. lia.
Qed.

Lemma rect_insert r c m i row :
  rect r c m -> length row = c -> rect r c (<[i := row]> m).
Proof.
  intros [Hl Hf] Hrow. split; [now rewrite length_insert|].
  now apply Forall_insert.
Qed.

Lemma rect_lookup r c m i row : rect r c m -> m !! i = Some row -> length row = c.
Proof. intros [_ Hf] Hi. rewrite Forall_lookup in Hf. exact (Hf _ _ Hi). Qed.

Lemma concat_nonempty r c (m : matrix) :
  rect r c m -> 1 <= r -> 1 <= c -> exists x xs, concat m = x :: xs.
Proof.
  intros [Hl Hf] Hr Hc. destruct m as [|row m]; simpl in *; [lia|].
  inversion Hf as [|? ? Hrow _]; subst.
  destruct row as [|x row]; simpl in *; [lia|]. eauto.
Qed.

Lemma max_ok r c (m : matrix) :
  rect r c m -> 1 <= r -> 1 <= c -> exists x, np.max m = Ok x.
Proof.
  intros H Hr Hc. destruct (concat_nonempty r c m H Hr Hc) as (x & xs & Hx).
  unfold np.max. rewrite Hx. eauto.
Qed.

Lemma max_ok_inv (m : matrix) x : np.max m = Ok x -> m <> [].
Proof. unfold np.max. destruct m; [discriminate|congruence]. Qed.

(** ** The [for ... in enumerate] loop *)

Lemma for_enumerate_ok {A St} (I : nat -> St -> Prop)
    (body : nat -> A -> St -> result St) (l : list A) :
  forall i s,
    I i s ->
    (forall j a s, l !! (j - i) = Some a -> i <= j -> I j s ->
                   exists s', body j a s = Ok s' /\ I (S j) s') ->
    exists s', for_enumerate body i l s = Ok s' /\ I (i + length l) s'.
Proof.
  induction l as [|a l IH]; intros i s Hs Hbody; simpl.
  - exists s. split; [reflexivity|]. now rewrite Nat.add_0_r.
  - destruct (Hbody i a s) as (s1 & -> & H1); [now rewrite Nat.sub_diag|lia|exact Hs|].
    simpl. destruct (IH (S i) s1 H1) as (s2 & -> & H2).
    + intros j b t Hb Hj Ht. apply Hbody; [|lia|exact Ht].
      replace (j - i) with (S (j - S i)) by lia. exact Hb.
    + exists s2. split; [reflexivity|]. now replace (i + S (length l)) with (S i + length l) by lia.
Qed.

(** ** Forward projection *)

Lemma length_fit D p : length (fit D p) = D.
Proof.
  unfold fit. repeat case_decide.
  - rewrite length_take. lia.
  - rewrite length_app, length_replicate. lia.
  - lia.
Qed.

Section Forward.

Context (E : Externals).

Lemma forward_projection_ok theta img P D :
  length theta <= P ->
  exists proj,
    forward_projection E theta img P D = Ok proj /\ rect P D proj /\
    (forall i angle, theta !! i = Some angle -> proj !! i = Some (project_angle E img D angle)) /\
    (forall i, length theta <= i -> proj !! i = np.zeros P D !! i).
Proof.
  intros Hlen. unfold forward_projection.
  destruct (for_enumerate_ok
    (fun j proj => rect P D proj /\
       (forall i angle, i < j -> theta !! i = Some angle -> proj !! i = Some (project_angle E img D angle)) /\
       (forall i, j <= i -> proj !! i = np.zeros P D !! i))
    (fun i angle projections =>
       set_row i (project_angle E img D angle) projections) theta 0 (np.zeros P D))
    as (proj & Hrun & Hrect & Hrows & Hrest).
  - split; [apply rect_zeros|]. split; [intros; lia|reflexivity].
  - intros j a s Ha _ (Hrect & Hrows & Hrest). rewrite Nat.sub_0_r in Ha.
    assert (j < length theta) by (apply lookup_lt_is_Some; eauto).
    unfold set_row. destruct Hrect as [Hl Hf].
    case_decide; [|lia]. eexists. split; [reflexivity|]. split; [|split].
    + apply rect_insert; [now split|apply length_fit].
    + intros i angle Hi Hth. destruct (decide (i = j)) as [->|Hne].
      * rewrite list_lookup_insert_eq by lia. congruence.
      * rewrite list_lookup_insert_ne by lia. apply Hrows; [lia|exact Hth].
    + intros i Hi. rewrite list_lookup_insert_ne by lia. apply Hrest. lia.
  - exists proj. split; [exact Hrun|]. split; [exact Hrect|]. split.
    + intros i angle Hth. apply Hrows; [|exact Hth]. simpl.
      apply lookup_lt_is_Some; eauto.
    + intros i Hi. apply Hrest. simpl. lia.
Qed.

End Forward.

(** ** Backprojection and the update *)

Lemma length_fold_zip_with c (rs : matrix) :
  Forall (fun row => length row = c) rs ->
  forall r, length r = c -> length (fold_left (zip_with PrimFloat.add) rs r) = c.
Proof.
  induction 1 as [|r' rs Hr' _ IH]; intros r Hr; simpl; [exact Hr|].
  apply IH. rewrite length_zip_with. lia.
Qed.

Lemma length_sum_axis0 S m : rect S S m -> length (np.sum_axis0 m) = S.
Proof.
  intros [Hl Hf]. destruct m as [|r rs]; simpl in *; [exact Hl|].
  inversion Hf as [|? ? Hr Hrs]. now apply length_fold_zip_with.
Qed.

Section Update.

Context (E : Externals) (HE : Contract E).

Lemma assign_leading_columns_ok D S row z :
  rect S S z -> length row = D -> 1 <= D <= S ->
  exists z', assign_leading_columns D row z = Ok z' /\ rect S S z'.
Proof.
  intros Hz Hrow HD. unfold assign_leading_columns.
  case_decide; [lia|]. rewrite (rect_hd S S z Hz) by lia.
  case_decide; [|lia]. eexists. split; [reflexivity|].
  destruct Hz as [Hl Hf]. split; [now rewrite length_map|].
  apply Forall_map. eapply Forall_impl; [exact Hf|].
  intros r Hr. simpl in *. rewrite length_app, length_drop. lia.
Qed.

Lemma backprojection_ok theta error img P D S :
  rect P D error -> rect S S img -> length theta <= P -> 1 <= D <= S ->
  exists bp, backprojection E theta error img D = Ok bp /\ rect S S bp.
Proof.
  intros Herr Himg Hlen HD. unfold backprojection.
  destruct (for_enumerate_ok (fun _ bp => rect S S bp)
    (fun i angle backprojected_error =>
       row ← get_row i error;
       expanded_error ← assign_leading_columns D row (np.zeros_like img);
       let rotated_error := rotate E expanded_error (- angle)%float in
       Ok (np.add backprojected_error rotated_error)) theta 0 (np.zeros_like img))
    as (bp & Hrun & Hbp).
  - now apply rect_zeros_like.
  - intros j a bp Ha _ Hbp. rewrite Nat.sub_0_r in Ha.
    assert (Hj : j < length theta) by (apply lookup_lt_is_Some; eauto).
    destruct (lookup_lt_is_Some_2 error j) as [row Hrow]; [destruct Herr; lia|].
    unfold get_row. rewrite Hrow. simpl.
    destruct (assign_leading_columns_ok D S row (np.zeros_like img))
      as (z & -> & Hz); [now apply rect_zeros_like|eapply rect_lookup; eauto|exact HD|].
    simpl. eexists. split; [reflexivity|].
    apply rect_zip_with; [exact Hbp|]. now apply (rotate_shape E HE).
  - eauto.
Qed.

Lemma normalize_ok S bp :
  rect S S bp -> 1 <= S -> exists bp', normalize bp = Ok bp' /\ rect S S bp'.
Proof.
  intros Hbp HS. unfold normalize.
  destruct (max_ok S S (np.abs bp)) as [m ->]; [now apply rect_map|exact HS|exact HS|].
  simpl. destruct (negb _); eexists; (split; [reflexivity|]); [now apply rect_map|exact Hbp].
Qed.

Lemma update_ok theta error img P D S lr :
  rect P D error -> rect S S img -> length theta <= P -> 1 <= D <= S ->
  exists img', update E theta P D lr img error = Ok img' /\ rect S S img'.
Proof.
  intros Herr Himg Hlen HD. unfold update.
  destruct (backprojection_ok theta error img P D S) as (bp & -> & Hbp); auto.
  simpl. destruct (normalize_ok S bp) as (bp' & -> & Hbp'); [exact Hbp|lia|].
  simpl. eexists. split; [reflexivity|].
  apply rect_map. now apply rect_zip_with.
Qed.

Lemma residual_ok sinogram theta img P D :
  rect P D sinogram -> length theta <= P -> 1 <= P -> 1 <= D ->
  exists error m, residual E sinogram theta P D img = Ok (error, m) /\ rect P D error.
Proof.
  intros Hs Hlen HP HD. unfold residual.
  destruct (forward_projection_ok E theta img P D Hlen) as (proj & -> & Hproj & _).
  simpl.
  assert (Herr : rect P D (np.subtract sinogram proj)) by now apply rect_zip_with.
  destruct (max_ok P D (np.abs (np.subtract sinogram proj))) as [m ->];
    [now apply rect_map|exact HP|exact HD|].
  simpl. eauto.
Qed.

Lemma iteration_ok sinogram theta img prev P D S tol lr :
  rect P D sinogram -> rect S S img -> length theta <= P -> 1 <= P -> 1 <= D <= S ->
  exists st, iteration E sinogram theta P D tol lr img prev = Ok st /\
             match st with Break => True | Continue img' _ => rect S S img' end.
Proof.
  intros Hs Himg Hlen HP HD. unfold iteration.
  destruct (residual_ok sinogram theta img P D) as (error & m & -> & Herr); auto; [lia|].
  simpl. destruct (plateau prev m tol); [exists Break; auto|].
  destruct (update_ok theta error img P D S lr) as (img' & -> & Himg'); auto.
  simpl. eexists. split; [reflexivity|exact Himg'].
Qed.

Lemma EST_loop_ok sinogram theta P D S tol lr n :
  rect P D sinogram -> length theta <= P -> 1 <= P -> 1 <= D <= S ->
  forall img prev, rect S S img ->
  exists out, EST_loop E sinogram theta P D tol lr n img prev = Ok out /\ rect S S out.
Proof.
  intros Hs Hlen HP HD. induction n as [|n IH]; intros img prev Himg; simpl; [eauto|].
  destruct (iteration_ok sinogram theta img prev P D S tol lr) as (st & -> & Hst); auto.
  simpl. destruct st as [|img' prev']; [eauto|]. now apply IH.
Qed.

Lemma length_rot90_neg1 P D m : rect P D m -> 1 <= P -> length (np.rot90_neg1 m) = D.
Proof.
  intros H HP. unfold np.rot90_neg1, np.transpose.
  rewrite !length_map, length_seq. now apply (rect_hd P D).
Qed.

Lemma EST_reco_ok sinogram theta P D n tol lr init :
  rect P D sinogram -> length theta <= P -> 1 <= P -> 1 <= D ->
  iradon E (np.rot90_neg1 sinogram) theta = Ok init ->
  exists out, EST_reco E sinogram theta n tol lr = Ok out /\ rect D D out.
Proof.
  intros Hs Hlen HP HD Hinit. unfold EST_reco.
  rewrite (rect_shape P D sinogram Hs HP), Hinit. simpl.
  pose proof (iradon_shape E HE _ _ _ Hinit) as Hrect.
  rewrite (length_rot90_neg1 P D) in Hrect by assumption.
  apply EST_loop_ok; auto; lia.
Qed.

End Update.

(** ** The stand-ins meet the contract *)

Lemma Mock_contract : Contract Mock.externals.
Proof.
  split; simpl.
  - intros r c m a H. exact H.
  - reflexivity.
  - intros ri th img H. unfold Mock.iradon in H. injection H as <-.
    split; [apply length_replicate|].
    apply Forall_replicate. now rewrite length_map.
Qed.

(** ** The loop, one pass at a time *)

Section Loop.

Context (E : Externals).

Lemma EST_loop_step sinogram theta P D tol lr n img prev :
  EST_loop E sinogram theta P D tol lr (S n) img prev =
  ('(error, max_error) ← residual E sinogram theta P D img;
   if plateau prev max_error tol then Ok img
   else img' ← update E theta P D lr img error;
        EST_loop E sinogram theta P D tol lr n img' max_error).
Proof.
  simpl. unfold iteration.
  destruct (residual E sinogram theta P D img) as [[error m]|e]; simpl; [|reflexivity].
  destruct (plateau prev m tol); simpl; [reflexivity|].
  destruct (update E theta P D lr img error); reflexivity.
Qed.

Lemma update_clipped theta P D lr img error img' :
  update E theta P D lr img error = Ok img' -> all_entries nonneg_or_nan img'.
Proof.
  unfold update. intros H.
  destruct (backprojection E theta error img D) as [bp|]; simpl in H; [|discriminate].
  destruct (normalize bp) as [bp'|]; simpl in H; [|discriminate].
  injection H as <-. unfold np.maximum, all_entries.
  apply Forall_map, Forall_forall. intros row _. simpl.
  apply Forall_map, Forall_forall. intros x _. simpl.
  unfold nonneg_or_nan. apply orb_true_iff. apply maximum_scalar_0.
Qed.

Lemma EST_loop_clipped sinogram theta P D tol lr n :
  forall img prev out,
    all_entries nonneg_or_nan img ->
    EST_loop E sinogram theta P D tol lr n img prev = Ok out ->
    all_entries nonneg_or_nan out.
Proof.
  induction n as [|n IH]; intros img prev out Himg H.
  - simpl in H. now injection H as <-.
  - rewrite EST_loop_step in H.
    destruct (residual E sinogram theta P D img) as [[error m]|]; simpl in H; [|discriminate].
    destruct (plateau prev m tol); [now injection H as <-|].
    destruct (update E theta P D lr img error) as [img'|] eqn:Hu; simpl in H; [|discriminate].
    eapply IH; [|exact H]. eapply update_clipped; eauto.
Qed.

Lemma EST_loop_first sinogram theta P D tol lr n img :
  EST_loop E sinogram theta P D tol lr (S n) img infinity =
  ('(error, max_error) ← residual E sinogram theta P D img;
   img' ← update E theta P D lr img error;
   EST_loop E sinogram theta P D tol lr n img' max_error).
Proof.
  rewrite EST_loop_step.
  destruct (residual E sinogram theta P D img) as [[error m]|e]; simpl; [|reflexivity].
  now rewrite plateau_inf.
Qed.

Lemma EST_reco_first sinogram theta tol lr n :
  EST_reco E sinogram theta (S n) tol lr =
  (let '(P, D) := np.shape sinogram in
   initial_guess ← iradon E (np.rot90_neg1 sinogram) theta;
   '(error, max_error) ← residual E sinogram theta P D initial_guess;
   estimated_image ← update E theta P D lr initial_guess error;
   EST_loop E sinogram theta P D tol lr n estimated_image max_error).
Proof.
  unfold EST_reco. destruct (np.shape sinogram) as [P D].
  destruct (iradon E (np.rot90_neg1 sinogram) theta) as [init|]; simpl; [|reflexivity].
  apply EST_loop_first.
Qed.

End Loop.

(** C1. When [|previous_error - max_error| < tolerance] the loop is left and
    the image is returned as it stood at the start of that pass, whatever
    the size of [max_error] itself; otherwise the pass updates the image
    and the loop goes on with [max_error] as the new [previous_error]. *)
Theorem plateau_returns_image_unchanged
    (E : Externals) (sinogram : matrix) (theta : vector) (P D : nat)
    (tol lr : float) (n : nat) (img : matrix) (prev : float)
    (error : matrix) (max_error : float) :
  residual E sinogram theta P D img = Ok (error, max_error) ->
  ((PrimFloat.abs (prev - max_error) <? tol)%float = true ->
     iteration E sinogram theta P D tol lr img prev = Ok Break /\
     EST_loop E sinogram theta P D tol lr (S n) img prev = Ok img) /\
  ((PrimFloat.abs (prev - max_error) <? tol)%float = false ->
     EST_loop E sinogram theta P D tol lr (S n) img prev =
     (img' ← update E theta P D lr img error;
      EST_loop E sinogram theta P D tol lr n img' max_error)).
Proof.
  intros Hres. split; intros Hp.
  - split.
    + unfold iteration. rewrite Hres. simpl. unfold plateau. now rewrite Hp.
    + rewrite EST_loop_step, Hres. simpl. unfold plateau. now rewrite Hp.
  - rewrite EST_loop_step, Hres. simpl. unfold plateau. now rewrite Hp.
Qed.

(** A pass that stops on a plateau although the error itself, 5, is far
    above the tolerance. *)
Lemma plateau_returns_image_unchanged_witness :
  EST_loop Mock.externals [[5%float]] [0%float] 1 1 default_tolerance
    default_learning_rate 3 [[0%float]] 5%float = Ok [[0%float]].
Proof.
  refine (proj2 (proj1 (plateau_returns_image_unchanged Mock.externals
            [[5%float]] [0%float] 1 1 default_tolerance default_learning_rate
            2 [[0%float]] 5%float [[5%float]] 5%float _) _));
    vm_compute; reflexivity.
Defined.

(** C10. [previous_error] starts at [np.inf] (line 67), and
    [abs(np.inf - max_error) < tolerance] is false whatever [max_error] and
    [tolerance] are. So a first pass never leaves the loop: it is the
    residual, then the backprojection, the guarded normalization, the
    gradient step of line 110 and the clip of line 111. A run of at least
    one iteration is the initial guess, that gradient step and clip, and
    only then the rest of the loop, where the loop may be left early. *)
Theorem first_pass_always_updates
    (E : Externals) (sinogram : matrix) (theta : vector) (tol lr : float)
    (n : nat) :
  (forall max_error, plateau infinity max_error tol = false) /\
  (forall P D estimated_image,
     iteration E sinogram theta P D tol lr estimated_image infinity =
     ('(error, max_error) ← residual E sinogram theta P D estimated_image;
      backprojected_error ← backprojection E theta error estimated_image D;
      backprojected_error ← normalize backprojected_error;
      Ok (Continue
            (np.maximum
               (gradient_update lr P estimated_image backprojected_error) 0%float)
            max_error))) /\
  EST_reco E sinogram theta (S n) tol lr =
  (let '(P, D) := np.shape sinogram in
   initial_guess ← iradon E (np.rot90_neg1 sinogram) theta;
   '(error, max_error) ← residual E sinogram theta P D initial_guess;
   backprojected_error ← backprojection E theta error initial_guess D;
   backprojected_error ← normalize backprojected_error;
   EST_loop E sinogram theta P D tol lr n
     (np.maximum (gradient_update lr P initial_guess backprojected_error) 0%float)
     max_error).
Proof.
  split; [intros m; apply plateau_inf|]. split.
  - intros P D img. unfold iteration.
    destruct (residual E sinogram theta P D img) as [[error m]|e]; simpl;
      [|reflexivity].
    rewrite plateau_inf. unfold update.
    destruct (backprojection E theta error img D) as [bp|e]; simpl; [|reflexivity].
    destruct (normalize bp) as [bp'|e]; reflexivity.
  - rewrite EST_reco_first. destruct (np.shape sinogram) as [P D].
    destruct (iradon E (np.rot90_neg1 sinogram) theta) as [init|e]; simpl;
      [|reflexivity].
    destruct (residual E sinogram theta P D init) as [[error m]|e]; simpl;
      [|reflexivity].
    unfold update.
    destruct (backprojection E theta error init D) as [bp|e]; simpl; [|reflexivity].
    destruct (normalize bp) as [bp'|e]; reflexivity.
Qed.

(** C2, as the code has it. Every update ends in [np.maximum(., 0)], so
    after it, and in the image returned by any run of at least one
    iteration, every element is [>= 0] or NaN: none is negative. *)
Theorem image_clipped_after_every_update
    (E : Externals) (sinogram : matrix) (theta : vector) (tol lr : float)
    (n : nat) (out : matrix) :
  1 <= n ->
  EST_reco E sinogram theta n tol lr = Ok out ->
  all_entries nonneg_or_nan out /\
  (forall P D img error img',
     update E theta P D lr img error = Ok img' -> all_entries nonneg_or_nan img').
Proof.
  intros Hn H. split; [|intros; eapply update_clipped; eauto].
  destruct n as [|n]; [lia|].
  rewrite EST_reco_first in H. destruct (np.shape sinogram) as [P D].
  destruct (iradon E (np.rot90_neg1 sinogram) theta) as [init|]; simpl in H; [|discriminate].
  destruct (residual E sinogram theta P D init) as [[error m]|]; simpl in H; [|discriminate].
  destruct (update E theta P D lr init error) as [img'|] eqn:Hu; simpl in H; [|discriminate].
  eapply EST_loop_clipped; [|exact H]. eapply update_clipped; eauto.
Qed.

(** One iteration on the sinogram [[1]]. *)
Lemma image_clipped_after_every_update_witness :
  all_entries nonneg_or_nan [[1%float]].
Proof.
  refine (proj1 (image_clipped_after_every_update Mock.externals
            [[1%float]] [0%float] default_tolerance default_learning_rate
            1 [[1%float]] _ _)); [lia|vm_compute; reflexivity].
Defined.

(** The claim C2 as it is worded, "every element is [>= 0]", fails on a
    sinogram that holds a NaN: the NaN reaches the image with the first
    update and [np.maximum(nan, 0)] is NaN. A finite sinogram can get there
    too: when the column sums overflow, the residual is infinite and line
    107 divides an infinity by an infinity. *)
Lemma nan_passes_the_clip :
  EST_reco Mock.externals [[nan]] [0%float] 1 default_tolerance
    default_learning_rate = Ok [[nan]] /\
  (0 <=? nan)%float = false /\
  EST_reco Mock.externals [[0x1p+1023%float; 0x1p+1023%float]] [0%float] 1
    default_tolerance default_learning_rate = Ok [[nan; nan]; [nan; nan]].
Proof. repeat split; vm_compute; reflexivity. Qed.

(** C4. The forward projection of a square image of side [S] under [P]
    angles, with [D] detectors, is a [(P, D)] array; its row for an angle is
    the profile of that angle, of length [S], cut to its first [D] samples
    when [S > D] and followed by [D - S] zeros otherwise. *)
Theorem forward_projection_shape
    (E : Externals) (theta : vector) (img : matrix) (P D S : nat) :
  Contract E -> rect S S img -> length theta = P ->
  exists proj,
    forward_projection E theta img P D = Ok proj /\ rect P D proj /\
    forall i angle, theta !! i = Some angle ->
      let profile := np.sum_axis0 (rotate E img angle) in
      length profile = S /\
      proj !! i = Some (if decide (D < S) then take D profile
                        else profile ++ replicate (D - S) 0%float).
Proof.
  intros HE Himg Hlen.
  destruct (forward_projection_ok E theta img P D) as (proj & Hrun & Hrect & Hrows & _);
    [lia|].
  exists proj. split; [exact Hrun|]. split; [exact Hrect|].
  intros i angle Hi profile.
  assert (Hp : length profile = S)
    by (apply length_sum_axis0, (rotate_shape E HE), Himg).
  split; [exact Hp|]. rewrite (Hrows i angle Hi).
  unfold project_angle, fit. fold profile. rewrite Hp.
  repeat case_decide; try lia; try reflexivity.
  replace (D - S) with 0 by lia. simpl. now rewrite app_nil_r.
Qed.

(** The truncation branch, [S = 2 > D = 1]. *)
Lemma forward_projection_shape_witness :
  exists proj,
    forward_projection Mock.externals [0%float] [[1%float; 2%float]; [3%float; 4%float]] 1 1
      = Ok proj /\ rect 1 1 proj /\
    forall i angle, [0%float] !! i = Some angle ->
      let profile :=
        np.sum_axis0 (rotate Mock.externals [[1%float; 2%float]; [3%float; 4%float]] angle) in
      length profile = 2 /\
      proj !! i = Some (if decide (1 < 2) then take 1 profile
                        else profile ++ replicate (1 - 2) 0%float).
Proof.
  apply (forward_projection_shape Mock.externals [0%float]
           [[1%float; 2%float]; [3%float; 4%float]] 1 1 2 Mock_contract).
  - split; [reflexivity|]. repeat constructor.
  - reflexivity.
Defined.

(** ** Divisors *)

Lemma for_enumerate_inv {A St} (I : St -> Prop)
    (body : nat -> A -> St -> result St) (l : list A) :
  (forall j a s s', I s -> body j a s = Ok s' -> I s') ->
  forall i s s', I s -> for_enumerate body i l s = Ok s' -> I s'.
Proof.
  intros Hbody. induction l as [|a l IH]; intros i s s' Hs H; simpl in H.
  - now injection H as <-.
  - destruct (body i a s) as [s1|] eqn:Hb; simpl in H; [|discriminate].
    eapply IH; [|exact H]. eapply Hbody; eauto.
Qed.

Lemma forward_projection_length (E : Externals) theta img P D proj :
  forward_projection E theta img P D = Ok proj -> length proj = P.
Proof.
  unfold forward_projection.
  apply (for_enumerate_inv (fun m : matrix => length m = P)).
  - intros j a s s' Hs. unfold set_row. case_decide; [|discriminate].
    intros Hr. injection Hr as <-. now rewrite length_insert.
  - apply length_replicate.
Qed.

Lemma residual_rows (E : Externals) sinogram theta P D img error m :
  residual E sinogram theta P D img = Ok (error, m) -> P <> 0.
Proof.
  unfold residual. intros H.
  destruct (forward_projection E theta img P D) as [proj|] eqn:Hf; simpl in H; [|discriminate].
  apply forward_projection_length in Hf.
  destruct (np.max (np.abs (np.subtract sinogram proj))) as [x|] eqn:Hm; simpl in H; [|discriminate].
  apply max_ok_inv in Hm. intros ->. apply Hm.
  destruct proj; [|discriminate]. unfold np.subtract, np.abs.
  now destruct sinogram.
Qed.

Section DivisionFacts.

Context (E : Externals) (div : float -> float -> float).

Hypothesis div_nonzero :
  forall x d, (d =? 0)%float = false -> div x d = (x / d)%float.

Lemma normalize_with_eq bp : normalize_with div bp = normalize bp.
Proof.
  unfold normalize_with, normalize.
  destruct (np.max (np.abs bp)) as [m|e]; simpl; [|reflexivity].
  destruct (m =? 0)%float eqn:Hm; simpl; [reflexivity|].
  f_equal. apply List.map_ext; intros row. apply List.map_ext; intros x.
  now apply div_nonzero.
Qed.

Lemma gradient_update_with_eq lr P img bp :
  (np.float_of_nat P =? 0)%float = false ->
  gradient_update_with div lr P img bp = gradient_update lr P img bp.
Proof.
  intros HP. unfold gradient_update_with, gradient_update.
  apply zip_with_ext; [|reflexivity|reflexivity].
  intros r1 r2. apply zip_with_ext; [|reflexivity|reflexivity].
  intros x b. now rewrite div_nonzero.
Qed.

Lemma update_with_eq theta P D lr img error :
  (np.float_of_nat P =? 0)%float = false ->
  update_with E div theta P D lr img error = update E theta P D lr img error.
Proof.
  intros HP. unfold update_with, update.
  destruct (backprojection E theta error img D) as [bp|e]; simpl; [|reflexivity].
  rewrite normalize_with_eq.
  destruct (normalize bp) as [bp'|e]; simpl; [|reflexivity].
  now rewrite gradient_update_with_eq.
Qed.

Lemma iteration_with_eq sinogram theta P D tol lr img prev :
  (Z.of_nat P < 2 ^ 63)%Z ->
  iteration_with E div sinogram theta P D tol lr img prev
  = iteration E sinogram theta P D tol lr img prev.
Proof.
  intros HP. unfold iteration_with, iteration.
  destruct (residual E sinogram theta P D img) as [[error m]|e] eqn:Hres; simpl;
    [|reflexivity].
  apply residual_rows in Hres.
  destruct (float_of_nat_positive P ltac:(lia) HP) as [_ HPf].
  destruct (plateau prev m tol); [reflexivity|].
  now rewrite update_with_eq.
Qed.

Lemma EST_loop_with_eq sinogram theta P D tol lr n :
  (Z.of_nat P < 2 ^ 63)%Z ->
  forall img prev,
    EST_loop_with E div sinogram theta P D tol lr n img prev
    = EST_loop E sinogram theta P D tol lr n img prev.
Proof.
  intros HP. induction n as [|n IH]; intros img prev; simpl; [reflexivity|].
  rewrite iteration_with_eq by exact HP.
  destruct (iteration E sinogram theta P D tol lr img prev) as [[|img' prev']|e];
    simpl; auto.
Qed.

End DivisionFacts.

(** C6. The loop divides in two places: line 107 by
    [np.max(np.abs(backprojected_error))], line 110 by [num_projections].
    Whatever a division by zero would give, the result of [EST_reco] is the
    same: put in place of [/] any operation that agrees with it on the
    divisors that are not zero, and the run returns, or raises, what it
    did. So no divisor of a run is zero, as a binary64 number: not the
    maximum, which is divided by only when it is not zero (the array is
    left as it is, without any division, when it is), and not
    [num_projections], which is at least 1 once the residual of the pass
    has been computed. The number of rows is below 2^63, as the size of
    an array is. *)
Theorem no_division_by_zero
    (E : Externals) (div : float -> float -> float)
    (sinogram : matrix) (theta : vector) (n : nat) (tol lr : float) :
  (Z.of_nat (length sinogram) < 2 ^ 63)%Z ->
  (forall x d, (d =? 0)%float = false -> div x d = (x / d)%float) ->
  EST_reco_with E div sinogram theta n tol lr = EST_reco E sinogram theta n tol lr /\
  (forall any bp m,
     np.max (np.abs bp) = Ok m -> (m =? 0)%float = true ->
     normalize_with any bp = Ok bp) /\
  (forall bp m,
     np.max (np.abs bp) = Ok m -> (m =? 0)%float = false ->
     normalize bp = Ok (map (map (fun x => (x / m)%float)) bp)).
Proof.
  intros HP Hdiv. split; [|split].
  - unfold EST_reco_with, EST_reco, np.shape.
    destruct (iradon E (np.rot90_neg1 sinogram) theta) as [init|e]; simpl;
      [|reflexivity].
    now apply EST_loop_with_eq.
  - intros any bp m Hm H0. unfold normalize_with. rewrite Hm. simpl. now rewrite H0.
  - intros bp m Hm H0. unfold normalize. rewrite Hm. simpl. now rewrite H0.
Qed.

(** Three passes on the sinogram [[-1]], with a division that answers NaN
    on a zero divisor: the first pass has a zero correction and skips the
    normalization, the second divides by the maximum 1. *)
Lemma no_division_by_zero_witness :
  EST_reco_with Mock.externals div_or_nan [[(-1)%float]] [0%float] 3
    default_tolerance default_learning_rate
  = EST_reco Mock.externals [[(-1)%float]] [0%float] 3
      default_tolerance default_learning_rate /\
  (forall any bp m,
     np.max (np.abs bp) = Ok m -> (m =? 0)%float = true ->
     normalize_with any bp = Ok bp) /\
  (forall bp m,
     np.max (np.abs bp) = Ok m -> (m =? 0)%float = false ->
     normalize bp = Ok (map (map (fun x => (x / m)%float)) bp)).
Proof.
  apply (no_division_by_zero Mock.externals div_or_nan [[(-1)%float]] [0%float] 3
           default_tolerance default_learning_rate).
  - reflexivity.
  - intros x d Hd. unfold div_or_nan. now rewrite Hd.
Defined.

(** ** The single angle of [EST_Angles(1)] *)

(** [np.linspace(-1, 1, 1)] is the one sample [0 * 2 + -1 = -1], and
    [arcsin(-1)] is the binary64 number nearest to [-pi/2], which [* 180
    / np.pi] takes to -90 exactly. *)
Lemma EST_Angles_1 (arcsin : float -> float) :
  arcsin (-1)%float = (-0x1.921fb54442d18p+0)%float ->
  Angles.EST_Angles arcsin 1 = [(-90)%float].
Proof.
  intros H. unfold Angles.EST_Angles.
  change (Angles.linspace (-1) 1 1) with [(-1)%float]. simpl. now rewrite H.
Qed.

(** C3, as the code has it. Neither function checks its arguments. A
    sinogram with at least one row and one column, with as many angles as
    rows, on which the initializer returns, is reconstructed without error
    for every [num_iterations], [tolerance] and [learning_rate]; with
    [num_iterations = 0] the loop body never runs and the initial guess is
    returned as it is; [EST_Angles(1)] is the one angle -90, for the
    [arcsin] of the C library, whose value at -1 is the binary64 number
    nearest to [-pi/2]. *)
Theorem no_validation_at_entry
    (E : Externals) (sinogram : matrix) (theta : vector) (P D : nat)
    (init : matrix) (n : nat) (tol lr : float) :
  Contract E -> rect P D sinogram -> 1 <= P -> 1 <= D -> length theta = P ->
  iradon E (np.rot90_neg1 sinogram) theta = Ok init ->
  (exists out, EST_reco E sinogram theta n tol lr = Ok out) /\
  EST_reco E sinogram theta 0 tol lr = Ok init /\
  (forall arcsin : float -> float,
     arcsin (-1)%float = (-0x1.921fb54442d18p+0)%float ->
     Angles.EST_Angles arcsin 1 = [(-90)%float]).
Proof.
  intros HE Hs HP HD Hlen Hinit. split; [|split].
  - destruct (EST_reco_ok E HE sinogram theta P D n tol lr init) as (out & Hout & _);
      auto; [lia|]. eauto.
  - unfold EST_reco. destruct (np.shape sinogram). now rewrite Hinit.
  - exact EST_Angles_1.
Qed.

(** One angle, no iteration, a negative tolerance and a learning rate of
    0, all at once. *)
Lemma no_validation_at_entry_witness :
  (exists out, EST_reco Mock.externals [[1%float]] [0%float] 0 (-1)%float 0%float = Ok out) /\
  EST_reco Mock.externals [[1%float]] [0%float] 0 (-1)%float 0%float = Ok [[1%float]] /\
  (forall arcsin : float -> float,
     arcsin (-1)%float = (-0x1.921fb54442d18p+0)%float ->
     Angles.EST_Angles arcsin 1 = [(-90)%float]).
Proof.
  apply (no_validation_at_entry Mock.externals [[1%float]] [0%float] 1 1
           [[1%float]] 0 (-1)%float 0%float Mock_contract).
  - split; [reflexivity|]. repeat constructor.
  - lia.
  - lia.
  - reflexivity.
  - reflexivity.
Defined.

(** The claim C3 as it is worded fails: each of the four inputs it lists is
    accepted, and the call returns an image. *)
Lemma malformed_input_is_accepted :
  returns (EST_reco Mock.externals [[1%float]] [0%float]
             default_num_iterations default_tolerance default_learning_rate) = true /\
  EST_reco Mock.externals [[1%float; 2%float]; [3%float; 4%float]] [0%float; 0%float]
    0 default_tolerance default_learning_rate
    = Ok [[3%float; 4%float]; [3%float; 4%float]] /\
  returns (EST_reco Mock.externals [[1%float; 2%float]; [3%float; 4%float]]
             [0%float; 0%float] 3 (-1)%float default_learning_rate) = true /\
  returns (EST_reco Mock.externals [[1%float; 2%float]; [3%float; 4%float]]
             [0%float; 0%float] 3 default_tolerance 0%float) = true /\
  Angles.EST_Angles Mock.arcsin 1 = [(-90)%float].
Proof. repeat split; vm_compute; reflexivity. Qed.

(** ** A pass on a zero residual *)

Lemma map_replicate {A B} (f : A -> B) n x : map f (replicate n x) = replicate n (f x).
Proof. induction n as [|n IH]; simpl; [reflexivity|now rewrite IH]. Qed.

Lemma map_const_replicate {A B} (c : B) (l : list A) :
  map (fun _ => c) l = replicate (length l) c.
Proof. induction l as [|a l IH]; simpl; [reflexivity|now rewrite IH]. Qed.

Lemma zeros_like_rect r c img : rect r c img -> np.zeros_like img = np.zeros r c.
Proof.
  intros [Hl Hf]. subst r. unfold np.zeros_like, np.zeros.
  induction Hf as [|row img Hrow _ IH]; simpl; [reflexivity|].
  now rewrite IH, map_const_replicate, Hrow.
Qed.

Lemma sub_diag_row (row : vector) :
  Forall (fun x => is_finite x = true) row ->
  zip_with PrimFloat.sub row row = replicate (length row) 0%float.
Proof.
  induction 1 as [|x row Hx _ IH]; simpl; [reflexivity|].
  now rewrite IH, sub_diag.
Qed.

Lemma subtract_self P D s :
  rect P D s -> all_entries is_finite s -> np.subtract s s = np.zeros P D.
Proof.
  intros [Hl Hf] Hfin. subst P. unfold np.subtract, np.zeros.
  induction Hfin as [|row s Hrow _ IH]; simpl; [reflexivity|].
  inversion Hf as [|? ? Hlen Hf']; subst.
  now rewrite IH, sub_diag_row.
Qed.

Lemma fold_maximum_zeros (l : vector) :
  Forall (fun x => x = 0%float) l -> fold_left np.maximum_scalar l 0%float = 0%float.
Proof. induction 1 as [|x l -> _ IH]; simpl; [reflexivity|exact IH]. Qed.

Lemma max_abs_zeros P D :
  1 <= P -> 1 <= D -> np.max (np.abs (np.zeros P D)) = Ok 0%float.
Proof.
  intros HP HD. unfold np.abs, np.zeros. rewrite !map_replicate.
  change (PrimFloat.abs 0) with 0%float.
  destruct P as [|P]; [lia|]. destruct D as [|D]; [lia|].
  unfold np.max. simpl. f_equal. apply fold_maximum_zeros.
  apply Forall_app. split; [apply Forall_replicate; reflexivity|].
  apply Forall_concat, Forall_replicate.
  constructor; [reflexivity|apply Forall_replicate; reflexivity].
Qed.

Section ZeroResidual.

Context (E : Externals) (HE : Contract E).

Lemma backprojection_zeros theta img P D S :
  rect S S img -> length theta <= P -> 1 <= D <= S ->
  backprojection E theta (np.zeros P D) img D = Ok (np.zeros S S).
Proof.
  intros Himg Hlen HD. unfold backprojection.
  rewrite (zeros_like_rect S S img Himg).
  destruct (for_enumerate_ok (fun _ bp => bp = np.zeros S S)
    (fun i angle backprojected_error =>
       row ← get_row i (np.zeros P D);
       expanded_error ← assign_leading_columns D row (np.zeros S S);
       let rotated_error := rotate E expanded_error (- angle)%float in
       Ok (np.add backprojected_error rotated_error)) theta 0 (np.zeros S S))
    as (bp & Hrun & ->); [reflexivity| |exact Hrun].
  intros j a bp Ha _ ->. rewrite Nat.sub_0_r in Ha.
  assert (Hj : j < length theta) by (apply lookup_lt_is_Some; eauto).
  assert (Hrow : np.zeros P D !! j = Some (replicate D 0%float))
    by (unfold np.zeros; apply lookup_replicate_2; lia).
  unfold get_row. rewrite Hrow. simpl.
  unfold assign_leading_columns. case_decide; [lia|].
  rewrite (rect_hd S S _ (rect_zeros S S)) by lia. case_decide; [|lia]. simpl.
  eexists. split; [|reflexivity]. f_equal.
  assert (Hexp : map (fun r => replicate D 0%float ++ drop D r) (np.zeros S S) = np.zeros S S).
  { unfold np.zeros. rewrite map_replicate, drop_replicate, <- replicate_add.
    now replace (D + (S - D)) with S by lia. }
  rewrite Hexp, (rotate_zeros E HE). unfold np.add, np.zeros.
  now rewrite !zip_with_replicate.
Qed.

Lemma normalize_zeros S : 1 <= S -> normalize (np.zeros S S) = Ok (np.zeros S S).
Proof. intros HS. unfold normalize. now rewrite max_abs_zeros. Qed.

Lemma gradient_update_zeros_row (f : float -> float -> float) (row : vector) c :
  length row = c -> Forall (fun x => f x 0%float = x) row ->
  zip_with f row (replicate c 0%float) = row.
Proof.
  intros <- H. induction H as [|x row Hx _ IH]; simpl; [reflexivity|].
  now rewrite IH, Hx.
Qed.

Lemma gradient_update_zeros_rows lr P c img :
  Forall (fun row => length row = c) img -> all_entries zero_or_positive img ->
  is_finite lr = true -> (0 <? np.float_of_nat P)%float = true ->
  gradient_update lr P img (replicate (length img) (replicate c 0%float)) = img.
Proof.
  intros Hf Hpos Hlr HP. unfold gradient_update.
  destruct (zero_step lr (np.float_of_nat P) Hlr HP) as [s Hs].
  induction Hpos as [|row img Hrow _ IH]; simpl; [reflexivity|].
  inversion Hf as [|? ? Hlen Hf']; subst.
  rewrite IH by assumption. f_equal.
  apply gradient_update_zeros_row; [reflexivity|].
  eapply Forall_impl; [exact Hrow|]. intros x Hx. simpl. eapply add_zero; eauto.
Qed.

Lemma gradient_update_zeros lr P S img :
  rect S S img -> all_entries zero_or_positive img ->
  is_finite lr = true -> (0 <? np.float_of_nat P)%float = true ->
  gradient_update lr P img (np.zeros S S) = img.
Proof.
  intros [Hl Hf] Hpos Hlr HP. unfold np.zeros.
  rewrite <- Hl at 1. now apply gradient_update_zeros_rows.
Qed.

Lemma maximum_keep img : all_entries zero_or_positive img -> np.maximum img 0%float = img.
Proof.
  unfold np.maximum. induction 1 as [|row img Hrow _ IH]; simpl; [reflexivity|].
  rewrite IH. f_equal.
  induction Hrow as [|x row Hx _ IHr]; simpl; [reflexivity|].
  now rewrite IHr, maximum_scalar_keep.
Qed.

Lemma update_zero_residual theta P D S lr img :
  rect S S img -> all_entries zero_or_positive img -> length theta <= P ->
  1 <= D <= S -> is_finite lr = true -> (0 <? np.float_of_nat P)%float = true ->
  update E theta P D lr img (np.zeros P D) = Ok img.
Proof.
  intros Himg Hpos Hlen HD Hlr HP. unfold update.
  rewrite (backprojection_zeros theta img P D S) by assumption. simpl.
  rewrite normalize_zeros by lia. simpl.
  now rewrite gradient_update_zeros, maximum_keep.
Qed.

End ZeroResidual.

(** X17. When the observed sinogram is the forward projection of the
    initial guess and that guess has no negative element (each is [+0.0] or
    positive, so that the clip of line 111 leaves it as it is), the first
    pass finds [max_error = 0] and changes nothing, the second pass stops
    on the plateau, and the call returns the initial guess for every
    [num_iterations]. *)
Theorem zero_residual_returns_initial_guess
    (E : Externals) (sinogram : matrix) (theta : vector) (P D : nat)
    (tol lr : float) (init : matrix) :
  Contract E ->
  1 <= P -> 1 <= D -> length theta = P ->
  iradon E (np.rot90_neg1 sinogram) theta = Ok init ->
  forward_projection E theta init P D = Ok sinogram ->
  all_entries is_finite sinogram ->
  all_entries zero_or_positive init ->
  (0 <? tol)%float = true -> is_finite lr = true ->
  (Z.of_nat P < 2 ^ 63)%Z ->
  iteration E sinogram theta P D tol lr init infinity = Ok (Continue init 0%float) /\
  iteration E sinogram theta P D tol lr init 0%float = Ok Break /\
  forall n, EST_reco E sinogram theta n tol lr = Ok init.
Proof.
  intros HE HP HD Hlen Hinit Hfwd Hfin Hpos Htol Hlr HPlt.
  destruct (float_of_nat_positive P HP HPlt) as [HPf _].
  assert (Hs : rect P D sinogram).
  { destruct (forward_projection_ok E theta init P D) as (proj & Hrun & Hrect & _); [lia|].
    rewrite Hfwd in Hrun. now injection Hrun as <-. }
  assert (Hi : rect D D init).
  { pose proof (iradon_shape E HE _ _ _ Hinit) as Hrect.
    now rewrite (length_rot90_neg1 P D) in Hrect. }
  assert (Hres : residual E sinogram theta P D init = Ok (np.zeros P D, 0%float)).
  { unfold residual. rewrite Hfwd. simpl.
    rewrite (subtract_self P D) by assumption. now rewrite max_abs_zeros. }
  assert (Hupd : update E theta P D lr init (np.zeros P D) = Ok init).
  { apply (update_zero_residual E HE theta P D D); auto; lia. }
  assert (Hplateau : plateau 0 0 tol = true) by exact Htol.
  assert (H1 : iteration E sinogram theta P D tol lr init infinity = Ok (Continue init 0%float)).
  { unfold iteration. rewrite Hres. simpl. now rewrite plateau_inf, Hupd. }
  assert (H2 : iteration E sinogram theta P D tol lr init 0%float = Ok Break).
  { unfold iteration. rewrite Hres. simpl. now rewrite Hplateau. }
  split; [exact H1|]. split; [exact H2|].
  intros n. unfold EST_reco. rewrite (rect_shape P D sinogram Hs HP), Hinit. simpl.
  destruct n as [|n]; [reflexivity|]. simpl. rewrite H1. simpl.
  destruct n as [|n]; [reflexivity|]. simpl. now rewrite H2.
Qed.

(** The sinogram [[1]], whose initial guess [[1]] projects onto it. *)
Lemma zero_residual_returns_initial_guess_witness :
  iteration Mock.externals [[1%float]] [0%float] 1 1 default_tolerance
    default_learning_rate [[1%float]] infinity = Ok (Continue [[1%float]] 0%float) /\
  iteration Mock.externals [[1%float]] [0%float] 1 1 default_tolerance
    default_learning_rate [[1%float]] 0%float = Ok Break /\
  forall n, EST_reco Mock.externals [[1%float]] [0%float] n default_tolerance
              default_learning_rate = Ok [[1%float]].
Proof.
  apply (zero_residual_returns_initial_guess Mock.externals [[1%float]] [0%float] 1 1
           default_tolerance default_learning_rate [[1%float]] Mock_contract);
    try lia; try reflexivity; repeat constructor.
Defined.

(** ** The angles *)

Section AngleFacts.

Local Open Scope float_scope.

Lemma length_linspace start stop n : length (Angles.linspace start stop n) = n.
Proof.
  unfold Angles.linspace. cbv zeta.
  repeat case_decide; try destruct (_ =? 0);
    rewrite ?length_insert, !length_map, length_seq; reflexivity.
Qed.

Lemma linspace_last start stop n :
  (1 < n)%nat -> Angles.linspace start stop n !! (n - 1)%nat = Some stop.
Proof.
  intros Hn. unfold Angles.linspace. cbv zeta.
  case_decide; [|lia]. apply list_lookup_insert_eq.
  case_decide; try destruct (_ =? 0); rewrite !length_map, length_seq; lia.
Qed.

Lemma positive_nonzero (x : float) : (0 <? x) = true -> (x =? 0) = false.
Proof.
  rewrite FloatAxioms.ltb_spec, FloatAxioms.eqb_spec.
  change (Prim2SF 0) with (S754_zero false).
  destruct (Prim2SF x) as [s|s| |s m e]; try destruct s; try discriminate; reflexivity.
Qed.

(** The step is not zero, so the samples before the last are
    [k * step + start]. *)
Lemma linspace_lookup n k :
  (2 <= n)%nat -> (Z.of_nat n <= 2 ^ 63)%Z -> (k < n - 1)%nat ->
  Angles.linspace (-1) 1 n !! k =
  Some (np.float_of_nat k * (2 / np.float_of_nat (n - 1)) + -1).
Proof.
  intros Hn Hbound Hk. unfold Angles.linspace. cbv zeta.
  case_decide; [|lia]. rewrite list_lookup_insert_ne by lia.
  case_decide; [|lia]. change (1 - -1) with 2.
  destruct (step_positive_finite (n - 1) ltac:(lia) ltac:(lia)) as [Hpos _].
  rewrite (positive_nonzero _ Hpos).
  rewrite !lookup_map, lookup_seq_lt by lia. reflexivity.
Qed.

(** [0 * step + -1] is -1 exactly when the step is positive and finite. *)
Lemma first_sample (step : float) :
  (0 <? step) = true -> (step <? infinity) = true ->
  np.float_of_nat 0 * step + -1 = -1.
Proof.
  intros H0 Hinf. change (np.float_of_nat 0) with 0.
  rewrite FloatAxioms.ltb_spec in H0, Hinf.
  apply Prim2SF_inj. rewrite FloatAxioms.add_spec, FloatAxioms.mul_spec.
  change (Prim2SF 0) with (S754_zero false) in *.
  change (Prim2SF infinity) with (S754_infinity false) in *.
  destruct (Prim2SF step) as [s|s| |s m e]; try destruct s; try discriminate;
    reflexivity.
Qed.

Lemma linspace_first n :
  (2 <= n)%nat -> (Z.of_nat n <= 2 ^ 63)%Z -> Angles.linspace (-1) 1 n !! 0%nat = Some (-1).
Proof.
  intros Hn Hbound. rewrite linspace_lookup by lia.
  destruct (step_positive_finite (n - 1) ltac:(lia) ltac:(lia)) as [Hpos Hfin].
  now rewrite first_sample.
Qed.

End AngleFacts.

(** C5, as the code has it. For [2 <= n <= 2^63], [EST_Angles(n)] is a
    list of [n] angles. The [k]-th is [arcsin(s) * 180 / np.pi] for the
    [k]-th sample [s] of [np.linspace(-1, 1, n)]: the last sample is 1,
    and each sample before it is [k * step + -1] with [step = 2 / (n - 1)],
    every operation rounded to binary64. The first sample is -1 and the
    last is 1, exactly; in between, the samples are [-1 + 2k/(n - 1)] up to
    rounding. *)
Theorem EST_Angles_samples (arcsin : float -> float) (n k : nat) :
  2 <= n -> (Z.of_nat n <= 2 ^ 63)%Z -> k < n ->
  length (Angles.EST_Angles arcsin n) = n /\
  Angles.EST_Angles arcsin n !! k =
  Some (arcsin
          (if decide (k = n - 1)%nat then 1
           else np.float_of_nat k * (2 / np.float_of_nat (n - 1)) + -1)
        * 180 / np.pi)%float /\
  Angles.linspace (-1)%float 1%float n !! 0 = Some (-1)%float /\
  Angles.linspace (-1)%float 1%float n !! (n - 1) = Some 1%float.
Proof.
  intros Hn Hbound Hk. split; [|split; [|split]].
  - unfold Angles.EST_Angles. now rewrite length_map, length_linspace.
  - unfold Angles.EST_Angles. rewrite lookup_map. case_decide as Hlast.
    + subst k. now rewrite linspace_last by lia.
    + now rewrite linspace_lookup by lia.
  - now apply linspace_first.
  - apply linspace_last. lia.
Qed.

(** The five angles of [EST_Angles(5)], the second of them. *)
Lemma EST_Angles_samples_witness :
  length (Angles.EST_Angles Mock.arcsin 5) = 5 /\
  Angles.EST_Angles Mock.arcsin 5 !! 1 =
  Some (Mock.arcsin
          (if decide (1 = 5 - 1)%nat then 1
           else np.float_of_nat 1 * (2 / np.float_of_nat (5 - 1)) + -1)
        * 180 / np.pi)%float /\
  Angles.linspace (-1)%float 1%float 5 !! 0 = Some (-1)%float /\
  Angles.linspace (-1)%float 1%float 5 !! (5 - 1) = Some 1%float.
Proof.
  apply (EST_Angles_samples Mock.arcsin 5 1); lia.
Defined.

(** The claim C5 as it is worded fails: the angles are those of its formula
    up to rounding only. [arcsin(-1 + 2*1/(5 - 1))] is [arcsin(-1/2)], which
    is -30 degrees, and [EST_Angles(5)[1]] is -30.000000000000004, the
    binary64 number next below -30. Nor are the samples those of the
    formula evaluated in binary64: the fourth sample of
    [np.linspace(-1, 1, 11)] is [3 * 0.2 + -1 = -0.3999999999999999], while
    [-1 + 2*3/10] is -0.4. *)
Lemma EST_Angles_rounds :
  Angles.EST_Angles Mock.arcsin 5 !! 1 = Some (-0x1.e000000000001p+4)%float /\
  (-0x1.e000000000001p+4 <? -30)%float = true /\
  (asin (-1 + 2 * 1 / (5 - 1)) * 180 / PI = -30)%R /\
  Angles.linspace (-1)%float 1%float 11 !! 3 = Some (-0x1.9999999999998p-2)%float /\
  (-1 + 2 * 3 / 10)%float = (-0x1.999999999999ap-2)%float /\
  (-0x1.9999999999998p-2 =? -0x1.999999999999ap-2)%float = false.
Proof.
  split; [vm_compute; reflexivity|]. split; [vm_compute; reflexivity|].
  split; [|repeat split; vm_compute; reflexivity].
  replace (-1 + 2 * 1 / (5 - 1))%R with (- (1 / 2))%R by lra.
  rewrite asin_opp, <- sin_PI6, asin_sin by (pose proof PI_RGT_0; lra).
  field. apply PI_neq0.
Qed.

(** ** The heap run against the values *)

Lemma for_enumerate_refines {A St1 St2} (R : St1 -> St2 -> Prop)
    (body1 : nat -> A -> St1 -> result St1)
    (body2 : nat -> A -> St2 -> result St2) :
  (forall i a s1 s2, R s1 s2 -> refines R (body1 i a s1) (body2 i a s2)) ->
  forall l i s1 s2, R s1 s2 ->
    refines R (for_enumerate body1 i l s1) (for_enumerate body2 i l s2).
Proof.
  intros Hbody. induction l as [|a l IH]; intros i s1 s2 Hs; simpl.
  - exists s1. now split.
  - specialize (Hbody i a s1 s2 Hs). unfold refines in Hbody.
    destruct (body2 i a s2) as [s2'|e]; simpl.
    + destruct Hbody as (s1' & -> & Hs'). simpl. now apply IH.
    + now rewrite Hbody.
Qed.

Lemma refines_weaken {A B} (R R' : A -> B -> Prop) imp pure :
  (forall a b, R a b -> R' a b) -> refines R imp pure -> refines R' imp pure.
Proof.
  intros HR. unfold refines. destruct pure as [b|e]; [|auto].
  intros (a & Ha & Hab). eauto.
Qed.

Lemma for_enumerate_refines_ret {A St1 St2 B} (R : St1 -> St2 -> Prop)
    (k : St1 -> B)
    (body1 : nat -> A -> St1 -> result St1)
    (body2 : nat -> A -> St2 -> result St2) l i s1 s2 :
  (forall i a s1 s2, R s1 s2 -> refines R (body1 i a s1) (body2 i a s2)) ->
  R s1 s2 ->
  refines (fun r s2' => exists s1', r = k s1' /\ R s1' s2')
    (s1' ← for_enumerate body1 i l s1; Ok (k s1'))
    (for_enumerate body2 i l s2).
Proof.
  intros Hbody Hs.
  pose proof (for_enumerate_refines R body1 body2 Hbody l i s1 s2 Hs) as H.
  unfold refines in *. destruct (for_enumerate body2 i l s2) as [s2'|e].
  - destruct H as (s1' & -> & Hs'). simpl. eauto.
  - now rewrite H.
Qed.

Section HeapRun.

Context (E : Externals).

Lemma load2_app_l h t l m :
  h !! l = Some (Imp.Arr2 m) -> Imp.load2 l (h ++ t) = Ok m.
Proof. intros H. unfold Imp.load2. now rewrite (lookup_app_l_Some _ _ _ _ H). Qed.

Lemma load2_lookup h l m : h !! l = Some (Imp.Arr2 m) -> Imp.load2 l h = Ok m.
Proof. intros H. unfold Imp.load2. now rewrite H. Qed.

Lemma load1_lookup h l v : h !! l = Some (Imp.Arr1 v) -> Imp.load1 l h = Ok v.
Proof. intros H. unfold Imp.load1. now rewrite H. Qed.

Lemma load1_app_l h t l v :
  h !! l = Some (Imp.Arr1 v) -> Imp.load1 l (h ++ t) = Ok v.
Proof. intros H. unfold Imp.load1. now rewrite (lookup_app_l_Some _ _ _ _ H). Qed.

Lemma load2_middle h t m : Imp.load2 (length h) (h ++ Imp.Arr2 m :: t) = Ok m.
Proof. unfold Imp.load2. now rewrite list_lookup_middle. Qed.

Lemma store_middle h t a b :
  Imp.store (length h) b (h ++ a :: t) = h ++ b :: t.
Proof.
  unfold Imp.store. rewrite insert_app_r_alt by lia. now rewrite Nat.sub_diag.
Qed.

Lemma forward_projection_refines t theta est img P D h :
  h !! t = Some (Imp.Arr1 theta) -> h !! est = Some (Imp.Arr2 img) ->
  refines (fun r proj => r = (length h, h ++ [Imp.Arr2 proj]))
    (Imp.forward_projection E t est P D h)
    (forward_projection E theta img P D).
Proof.
  intros Ht Hest. unfold Imp.forward_projection, forward_projection, Imp.alloc.
  rewrite (load1_app_l _ _ _ _ Ht). simpl.
  eapply refines_weaken;
    [|apply (for_enumerate_refines_ret
               (fun h' (m : matrix) => h' = h ++ [Imp.Arr2 m])
               (fun h' => (length h, h')))].
  - intros r proj (h' & -> & ->). reflexivity.
  - intros i a h' m ->.
    rewrite (load2_app_l _ _ _ _ Hest). simpl. rewrite load2_middle. simpl.
    unfold refines. destruct (set_row i (project_angle E img D a) m) as [m'|e]; simpl;
      [|reflexivity].
    eexists. split; [reflexivity|apply store_middle].
  - reflexivity.
Qed.

Lemma backprojection_refines t theta error est img D h :
  h !! t = Some (Imp.Arr1 theta) -> h !! est = Some (Imp.Arr2 img) ->
  refines (fun r bp => exists tl, r = (length h, h ++ Imp.Arr2 bp :: tl))
    (Imp.backprojection E t error est D h)
    (backprojection E theta error img D).
Proof.
  intros Ht Hest. unfold Imp.backprojection, backprojection, Imp.alloc.
  rewrite (load2_lookup _ _ _ Hest). simpl.
  rewrite (load1_app_l _ _ _ _ Ht). simpl.
  eapply refines_weaken;
    [|apply (for_enumerate_refines_ret
               (fun h' (bp : matrix) => exists tl, h' = h ++ Imp.Arr2 bp :: tl)
               (fun h' => (length h, h')))].
  - intros r bp (h' & -> & [tl ->]). eauto.
  - intros i a h' bp [tl ->].
    rewrite (load2_app_l _ _ _ _ Hest). simpl.
    unfold refines. destruct (get_row i error) as [row|e]; simpl; [|reflexivity].
    rewrite load2_middle. simpl.
    destruct (assign_leading_columns D row (np.zeros_like img)) as [z|e]; simpl;
      [|reflexivity].
    rewrite store_middle, load2_middle. simpl.
    rewrite <- app_assoc. simpl. rewrite load2_middle. simpl.
    rewrite store_middle. eexists. split; [reflexivity|]. eauto.
  - exists []. reflexivity.
Qed.

Lemma normalize_refines bp_loc bp h :
  h !! bp_loc = Some (Imp.Arr2 bp) ->
  refines (fun h' bp' => h' = <[bp_loc := Imp.Arr2 bp']> h)
    (Imp.normalize bp_loc h) (normalize bp).
Proof.
  intros Hbp. unfold Imp.normalize, normalize. rewrite (load2_lookup _ _ _ Hbp). simpl.
  unfold refines. destruct (np.max (np.abs bp)) as [m|e]; simpl; [|reflexivity].
  destruct (negb _); eexists; (split; [reflexivity|]); [reflexivity|].
  symmetry. now apply list_insert_id.
Qed.

Lemma iteration_refines s t est sinogram theta img P D tol lr prev h :
  h !! s = Some (Imp.Arr2 sinogram) -> h !! t = Some (Imp.Arr1 theta) ->
  h !! est = Some (Imp.Arr2 img) ->
  refines (pass_ok h est)
    (Imp.iteration E s t P D tol lr est prev h)
    (iteration E sinogram theta P D tol lr img prev).
Proof.
  intros Hs Ht Hest. unfold Imp.iteration, iteration, residual.
  pose proof (forward_projection_refines t theta est img P D h Ht Hest) as Hf.
  unfold refines in *.
  destruct (forward_projection E theta img P D) as [proj|e]; simpl;
    [destruct Hf as (r & -> & ->)|now rewrite Hf]. simpl.
  rewrite (load2_app_l _ _ _ _ Hs). simpl. rewrite load2_middle. simpl.
  destruct (np.max (np.abs (np.subtract sinogram proj))) as [m|e]; simpl; [|reflexivity].
  destruct (plateau prev m tol).
  { eexists. split; [reflexivity|]. simpl. split; [reflexivity|].
    intros k Hk. now apply lookup_app_l. }
  unfold update.
  pose proof (backprojection_refines t theta (np.subtract sinogram proj) est img D
                (h ++ [Imp.Arr2 proj]) (lookup_app_l_Some _ _ _ _ Ht)
                (lookup_app_l_Some _ _ _ _ Hest)) as Hb.
  unfold refines in Hb.
  destruct (backprojection E theta (np.subtract sinogram proj) img D) as [bp|e]; simpl;
    [destruct Hb as (r & -> & [tl ->])|now rewrite Hb]. simpl.
  pose proof (normalize_refines (length (h ++ [Imp.Arr2 proj])) bp
                ((h ++ [Imp.Arr2 proj]) ++ Imp.Arr2 bp :: tl)
                (list_lookup_middle _ _ _ _ eq_refl)) as Hn.
  unfold refines in Hn.
  destruct (normalize bp) as [bp'|e]; simpl;
    [destruct Hn as (h3 & -> & ->)|now rewrite Hn]. simpl.
  fold (Imp.store (length (h ++ [Imp.Arr2 proj])) (Imp.Arr2 bp')
          ((h ++ [Imp.Arr2 proj]) ++ Imp.Arr2 bp :: tl)).
  rewrite store_middle.
  assert (Hest3 : ((h ++ [Imp.Arr2 proj]) ++ Imp.Arr2 bp' :: tl) !! est = Some (Imp.Arr2 img))
    by now apply lookup_app_l_Some, lookup_app_l_Some.
  rewrite (load2_lookup _ _ _ Hest3). simpl. rewrite load2_middle. simpl.
  assert (Hlt : est < length ((h ++ [Imp.Arr2 proj]) ++ Imp.Arr2 bp' :: tl))
    by (apply lookup_lt_is_Some; eauto).
  unfold Imp.store at 2.
  rewrite (load2_lookup _ _ _ (list_lookup_insert_eq _ _ _ Hlt)). simpl.
  unfold Imp.alloc. eexists. split; [reflexivity|]. simpl.
  eexists. split; [reflexivity|]. split; [now apply list_lookup_middle|].
  unfold Imp.store. rewrite length_insert, !length_app. simpl. split; [lia|].
  intros k Hk Hne. rewrite lookup_app_l by (rewrite length_insert, !length_app; simpl; lia).
  rewrite list_lookup_insert_ne by lia.
  rewrite <- app_assoc. now apply lookup_app_l.
Qed.

Lemma EST_loop_refines s t sinogram theta P D tol lr b n :
  forall est img prev h,
    h !! s = Some (Imp.Arr2 sinogram) -> h !! t = Some (Imp.Arr1 theta) ->
    h !! est = Some (Imp.Arr2 img) -> s < b -> t < b -> b <= est ->
    refines (fun r out => let '(l, h') := r in
               h' !! l = Some (Imp.Arr2 out) /\
               forall k, k < b -> h' !! k = h !! k)
      (Imp.EST_loop E s t P D tol lr n est prev h)
      (EST_loop E sinogram theta P D tol lr n img prev).
Proof.
  induction n as [|n IH]; intros est img prev h Hs Ht Hest Hsb Htb Hb; simpl.
  { eexists. split; [reflexivity|]. simpl. auto. }
  pose proof (iteration_refines s t est sinogram theta img P D tol lr prev h Hs Ht Hest) as Hi.
  assert (Hlen : est < length h) by (apply lookup_lt_is_Some; eauto).
  unfold refines in *.
  destruct (iteration E sinogram theta P D tol lr img prev) as [st|e]; simpl;
    [destruct Hi as ([st' h'] & -> & Hpass)|now rewrite Hi]. simpl.
  destruct st as [|img' prev']; simpl in Hpass.
  - destruct Hpass as [-> Hsame]. eexists. split; [reflexivity|]. simpl.
    split; [rewrite Hsame; assumption|]. intros k Hk. apply Hsame. lia.
  - destruct Hpass as (est' & -> & Hest' & Hge & Hsame).
    assert (Hs' : h' !! s = Some (Imp.Arr2 sinogram)) by (rewrite Hsame; [assumption|lia|lia]).
    assert (Ht' : h' !! t = Some (Imp.Arr1 theta)) by (rewrite Hsame; [assumption|lia|lia]).
    specialize (IH est' img' prev' h' Hs' Ht' Hest' Hsb Htb ltac:(lia)).
    destruct (EST_loop E sinogram theta P D tol lr n img' prev') as [out|e].
    + destruct IH as ([l h''] & -> & Hl & Hsame'). eexists. split; [reflexivity|]. simpl.
      split; [exact Hl|]. intros k Hk. rewrite Hsame' by assumption. apply Hsame; lia.
    + exact IH.
Qed.

Lemma EST_reco_refines s t sinogram theta n tol lr h :
  h !! s = Some (Imp.Arr2 sinogram) -> h !! t = Some (Imp.Arr1 theta) ->
  refines (fun r out => let '(l, h') := r in
             h' !! l = Some (Imp.Arr2 out) /\
             forall k, k < length h -> h' !! k = h !! k)
    (Imp.EST_reco E s t n tol lr h)
    (EST_reco E sinogram theta n tol lr).
Proof.
  intros Hs Ht. unfold Imp.EST_reco, EST_reco.
  rewrite (load2_lookup _ _ _ Hs), (load1_lookup _ _ _ Ht). simpl.
  set (P := length sinogram). set (D := length (hd [] sinogram)).
  destruct (iradon E (np.rot90_neg1 sinogram) theta) as [init|e]; simpl; [|reflexivity].
  unfold Imp.alloc. rewrite load2_middle. simpl.
  assert (Hsl : s < length h) by (apply lookup_lt_is_Some; eauto).
  assert (Htl : t < length h) by (apply lookup_lt_is_Some; eauto).
  pose proof (EST_loop_refines s t sinogram theta P D tol lr (length h) n
    (length (h ++ [Imp.Arr2 init])) init infinity
    ((h ++ [Imp.Arr2 init]) ++ [Imp.Arr2 init])) as Hloop.
  unfold refines in *.
  specialize (Hloop ltac:(now apply lookup_app_l_Some, lookup_app_l_Some)
                    ltac:(now apply lookup_app_l_Some, lookup_app_l_Some)
                    ltac:(now apply list_lookup_middle) Hsl Htl
                    ltac:(rewrite length_app; lia)).
  destruct (EST_loop E sinogram theta P D tol lr n init infinity) as [out|e].
  - destruct Hloop as ([l h'] & -> & Hl & Hsame). eexists. split; [reflexivity|]. simpl.
    split; [exact Hl|]. intros k Hk. rewrite Hsame by assumption.
    rewrite <- app_assoc. now apply lookup_app_l.
  - exact Hloop.
Qed.

End HeapRun.

(** C9. A call of [EST_reco] on the objects at [s] (the sinogram) and [t]
    (the angles) that returns leaves both, and every other array that
    existed at the call, element for element as they were; the array it
    returns is the one the run on values computes. *)
Theorem EST_reco_leaves_its_inputs
    (E : Externals) (s t : Imp.loc) (sinogram : matrix) (theta : vector)
    (n : nat) (tol lr : float) (h h' : Imp.heap) (l : Imp.loc) :
  h !! s = Some (Imp.Arr2 sinogram) -> h !! t = Some (Imp.Arr1 theta) ->
  Imp.EST_reco E s t n tol lr h = Ok (l, h') ->
  h' !! s = Some (Imp.Arr2 sinogram) /\
  h' !! t = Some (Imp.Arr1 theta) /\
  (forall k, k < length h -> h' !! k = h !! k) /\
  exists out, EST_reco E sinogram theta n tol lr = Ok out /\
              h' !! l = Some (Imp.Arr2 out).
Proof.
  intros Hs Ht Hrun.
  pose proof (EST_reco_refines E s t sinogram theta n tol lr h Hs Ht) as Href.
  unfold refines in Href.
  destruct (EST_reco E sinogram theta n tol lr) as [out|e];
    [|rewrite Hrun in Href; discriminate].
  destruct Href as ([l0 h0] & Hrun0 & Hl & Hsame).
  rewrite Hrun in Hrun0. injection Hrun0 as <- <-.
  assert (Hsl : s < length h) by (apply lookup_lt_is_Some; eauto).
  assert (Htl : t < length h) by (apply lookup_lt_is_Some; eauto).
  split; [now rewrite Hsame|]. split; [now rewrite Hsame|].
  split; [exact Hsame|]. eauto.
Qed.

(** The call of [demo_result]. *)
Lemma EST_reco_leaves_its_inputs_witness :
  snd demo_result !! 0 = Some (Imp.Arr2 [[1%float]]) /\
  snd demo_result !! 1 = Some (Imp.Arr1 [0%float]) /\
  (forall k, k < length demo_heap -> snd demo_result !! k = demo_heap !! k) /\
  exists out, EST_reco Mock.externals [[1%float]] [0%float] 2 default_tolerance
                default_learning_rate = Ok out /\
              snd demo_result !! fst demo_result = Some (Imp.Arr2 out).
Proof.
  apply (EST_reco_leaves_its_inputs Mock.externals 0 1 [[1%float]] [0%float] 2
           default_tolerance default_learning_rate demo_heap (snd demo_result)
           (fst demo_result)); vm_compute; reflexivity.
Defined.

(** * Further properties *)

(** ** More on the angles *)

(** X2. For [2 <= n <= 2^63] the first angle is -90 and the last is 90,
    exactly: the first sample is -1 and the last is 1, and the [arcsin] of
    the C library takes 1 and -1 to the binary64 number nearest to [pi/2]
    and to its opposite, which [* 180 / np.pi] takes to 90 and -90. *)
Theorem EST_Angles_endpoints (arcsin : float -> float) (n : nat) :
  2 <= n -> (Z.of_nat n <= 2 ^ 63)%Z ->
  arcsin (-1)%float = (-0x1.921fb54442d18p+0)%float ->
  arcsin 1%float = 0x1.921fb54442d18p+0%float ->
  Angles.EST_Angles arcsin n !! 0 = Some (-90)%float /\
  Angles.EST_Angles arcsin n !! (n - 1) = Some 90%float.
Proof.
  intros Hn Hbound Hm1 H1. unfold Angles.EST_Angles. rewrite !lookup_map.
  rewrite linspace_first, linspace_last by lia. simpl. now rewrite Hm1, H1.
Qed.

(** The sixteen projections of the script. *)
Lemma EST_Angles_endpoints_witness :
  Angles.EST_Angles Mock.arcsin 16 !! 0 = Some (-90)%float /\
  Angles.EST_Angles Mock.arcsin 16 !! (16 - 1) = Some 90%float.
Proof.
  apply (EST_Angles_endpoints Mock.arcsin 16); [lia|lia|reflexivity..].
Defined.

(** X18. The interior samples of [np.linspace(-1, 1, 4)] are not opposite
    in binary64: the second is [1 * (2/3) + -1 = -0.33333333333333337] and
    the third is [2 * (2/3) + -1 = 0.33333333333333326]. So [np.arcsin] is
    given arguments of different magnitude for the second and the third
    angle of [EST_Angles(4)]. *)
Theorem EST_Angles_4_interior (arcsin : float -> float) :
  Angles.linspace (-1)%float 1%float 4
  = [(-1)%float; (-0x1.5555555555556p-2)%float; 0x1.5555555555554p-2%float; 1%float] /\
  (- (-0x1.5555555555556p-2) =? 0x1.5555555555554p-2)%float = false /\
  Angles.EST_Angles arcsin 4 !! 1
  = Some (arcsin (-0x1.5555555555556p-2) * 180 / np.pi)%float /\
  Angles.EST_Angles arcsin 4 !! 2
  = Some (arcsin 0x1.5555555555554p-2 * 180 / np.pi)%float.
Proof.
  assert (H : Angles.linspace (-1)%float 1%float 4
              = [(-1)%float; (-0x1.5555555555556p-2)%float;
                 0x1.5555555555554p-2%float; 1%float])
    by (vm_compute; reflexivity).
  split; [exact H|]. split; [vm_compute; reflexivity|].
  unfold Angles.EST_Angles. rewrite H. split; reflexivity.
Qed.

(** ** The quadrant rotations of [make_sino] and [EST_reco] *)

Lemma nth_seq_row (row : list float) :
  map (fun j => nth j row 0%float) (seq 0 (length row)) = row.
Proof.
  induction row as [|x row IH]; simpl; [reflexivity|].
  f_equal. rewrite <- seq_shift, map_map. exact IH.
Qed.

Lemma nth_map_col j (m : matrix) i :
  nth i (map (fun row => nth j row 0%float) m) 0%float = nth j (nth i m []) 0%float.
Proof.
  revert i. induction m as [|row m IH]; intros [|i]; simpl; auto; now destruct j.
Qed.

Lemma rect_nth r c (m : matrix) i : rect r c m -> i < r -> length (nth i m []) = c.
Proof.
  intros [Hl Hf] Hi. rewrite Forall_forall in Hf. apply Hf, list_elem_of_In, nth_In. lia.
Qed.

Lemma rect_transpose r c m :
  rect r c m -> 1 <= r -> rect c r (np.transpose m).
Proof.
  intros Hm Hr. unfold np.transpose. rewrite (rect_hd r c m Hm Hr).
  split; [now rewrite length_map, length_seq|].
  apply Forall_map, Forall_forall. intros j _. simpl.
  rewrite length_map. now destruct Hm.
Qed.

Lemma transpose_involutive r c m :
  rect r c m -> 1 <= r -> 1 <= c -> np.transpose (np.transpose m) = m.
Proof.
  intros Hm Hr Hc.
  pose proof (rect_transpose r c m Hm Hr) as Ht.
  unfold np.transpose at 1. rewrite (rect_hd c r _ Ht Hc).
  apply (nth_ext _ _ [] []).
  - rewrite length_map, length_seq. now destruct Hm.
  - rewrite length_map, length_seq. intros i Hi.
    rewrite (nth_indep _ [] (map (fun r0 => nth 0 r0 0%float) (np.transpose m)))
      by now rewrite length_map, length_seq.
    rewrite (map_nth (fun j => map (fun r0 => nth j r0 0%float) (np.transpose m))
               (seq 0 r) 0 i).
    rewrite seq_nth by exact Hi. simpl.
    unfold np.transpose. rewrite (rect_hd r c m Hm Hr), map_map.
    erewrite map_ext.
    + rewrite <- (rect_nth r c m i Hm Hi) at 1. apply nth_seq_row.
    + intros j. simpl. apply nth_map_col.
Qed.

Lemma rect_map_rev r c (m : matrix) : rect r c m -> rect r c (map (@rev float) m).
Proof.
  intros [Hl Hf]. split; [now rewrite length_map|].
  apply Forall_map. eapply Forall_impl; [exact Hf|].
  intros row Hrow. simpl. now rewrite length_rev.
Qed.

Lemma rot90_neg1_rot90 r c m :
  rect r c m -> 1 <= r -> 1 <= c -> np.rot90_neg1 (rot90 m) = m.
Proof.
  intros Hm Hr Hc. unfold np.rot90_neg1, rot90.
  rewrite (transpose_involutive r c) by (try apply rect_map_rev; assumption).
  rewrite map_map. rewrite <- (map_id m) at 2.
  apply map_ext. intros row. apply rev_involutive.
Qed.

Lemma rect_rot90 r c m : rect r c m -> 1 <= r -> rect c r (rot90 m).
Proof. intros Hm Hr. now apply rect_transpose; [apply rect_map_rev|]. Qed.

(** X4. The rotation by a quarter turn that ends [make_sino] is undone by
    the one that [EST_reco] applies before the initializer: on a sinogram
    made by [make_sino], the initial guess is [iradon] of what [radon]
    returned, and a run without iteration returns just that. *)
Theorem make_sino_rotation_undone
    (E : Externals) (radon : matrix -> vector -> matrix)
    (phantom : matrix) (theta : vector) (r c : nat) (tol lr : float) :
  rect r c (radon phantom theta) -> 1 <= r -> 1 <= c ->
  np.rot90_neg1 (make_sino radon phantom theta) = radon phantom theta /\
  rect c r (make_sino radon phantom theta) /\
  EST_reco E (make_sino radon phantom theta) theta 0 tol lr
    = iradon E (radon phantom theta) theta.
Proof.
  intros Hm Hr Hc. unfold make_sino.
  pose proof (rot90_neg1_rot90 r c _ Hm Hr Hc) as Hrot.
  split; [exact Hrot|]. split; [now apply rect_rot90|].
  unfold EST_reco. destruct (np.shape (rot90 (radon phantom theta))).
  rewrite Hrot. now destruct (iradon E (radon phantom theta) theta).
Qed.

(** A 2 x 3 array from the stand-in [radon]. *)
Lemma make_sino_rotation_undone_witness :
  np.rot90_neg1 (make_sino mock_radon [[1%float; 2%float]; [3%float; 4%float]]
                   [0%float; 0%float; 0%float])
    = mock_radon [[1%float; 2%float]; [3%float; 4%float]] [0%float; 0%float; 0%float] /\
  rect 3 2 (make_sino mock_radon [[1%float; 2%float]; [3%float; 4%float]]
              [0%float; 0%float; 0%float]) /\
  EST_reco Mock.externals
    (make_sino mock_radon [[1%float; 2%float]; [3%float; 4%float]]
       [0%float; 0%float; 0%float])
    [0%float; 0%float; 0%float] 0 default_tolerance default_learning_rate
    = iradon Mock.externals
        (mock_radon [[1%float; 2%float]; [3%float; 4%float]] [0%float; 0%float; 0%float])
        [0%float; 0%float; 0%float].
Proof.
  apply (make_sino_rotation_undone Mock.externals mock_radon
           [[1%float; 2%float]; [3%float; 4%float]] [0%float; 0%float; 0%float] 2 3
           default_tolerance default_learning_rate).
  - split; [reflexivity|]. vm_compute. repeat constructor.
  - lia.
  - lia.
Defined.

(** X5. The script's pipeline. When [radon] returns one column per angle
    and one row per pixel of the side [S] of the phantom, and the
    initializer returns on it, both reconstructions are computed without
    error and both are [S] by [S]; the second is the initializer applied to
    what [radon] returned. *)
Theorem main_reconstructions_shape
    (E : Externals) (radon : matrix -> vector -> matrix)
    (phantom : matrix) (theta : vector) (S P : nat) (fbp : matrix) :
  Contract E ->
  rect S P (radon phantom theta) -> 1 <= S -> 1 <= P -> length theta = P ->
  iradon E (radon phantom theta) theta = Ok fbp ->
  exists est,
    main_reconstructions E radon phantom theta = Ok (est, fbp) /\
    rect S S est /\ rect S S fbp.
Proof.
  intros HE Hr HS HP Hlen Hfbp. unfold main_reconstructions.
  assert (Hrot : np.rot90_neg1 (make_sino radon phantom theta) = radon phantom theta)
    by (unfold make_sino; now apply (rot90_neg1_rot90 S P)).
  assert (Hsino : rect P S (make_sino radon phantom theta))
    by (unfold make_sino; now apply rect_rot90).
  destruct (EST_reco_ok E HE (make_sino radon phantom theta) theta P S 500
              default_tolerance main_learning_rate fbp) as (est & Hest & Hrect);
    auto; [lia|now rewrite Hrot|].
  simpl. rewrite Hest, Hrot, Hfbp. simpl.
  exists est. split; [reflexivity|]. split; [exact Hrect|].
  pose proof (iradon_shape E HE _ _ _ Hfbp) as H.
  destruct Hr as [Hl _]. now rewrite Hl in H.
Qed.

Lemma main_reconstructions_shape_witness :
  exists est,
    main_reconstructions Mock.externals mock_radon
      [[1%float; 2%float]; [3%float; 4%float]] [0%float; 0%float; 0%float]
      = Ok (est, [[4%float; 6%float]; [4%float; 6%float]]) /\
    rect 2 2 est /\ rect 2 2 [[4%float; 6%float]; [4%float; 6%float]].
Proof.
  apply (main_reconstructions_shape Mock.externals mock_radon
           [[1%float; 2%float]; [3%float; 4%float]] [0%float; 0%float; 0%float] 2 3
           [[4%float; 6%float]; [4%float; 6%float]] Mock_contract).
  - split; [reflexivity|]. vm_compute. repeat constructor.
  - lia.
  - lia.
  - reflexivity.
  - reflexivity.
Defined.

(** ** Shapes and errors of [EST_reco] *)

(** X6. On a sinogram of [P >= 1] rows and [D >= 1] columns, with no more
    angles than rows, the image returned is [D] by [D], for every
    [num_iterations], [tolerance] and [learning_rate]. *)
Theorem EST_reco_image_shape
    (E : Externals) (sinogram : matrix) (theta : vector) (P D n : nat)
    (tol lr : float) (out : matrix) :
  Contract E -> rect P D sinogram -> 1 <= P -> 1 <= D -> length theta <= P ->
  EST_reco E sinogram theta n tol lr = Ok out ->
  rect D D out.
Proof.
  intros HE Hs HP HD Hlen Hrun.
  destruct (iradon E (np.rot90_neg1 sinogram) theta) as [init|e] eqn:Hinit.
  - destruct (EST_reco_ok E HE sinogram theta P D n tol lr init) as (out' & Hout & Hrect);
      auto. congruence.
  - unfold EST_reco in Hrun. destruct (np.shape sinogram).
    rewrite Hinit in Hrun. discriminate.
Qed.

Lemma EST_reco_image_shape_witness :
  rect 2 2 [[3%float; 4%float]; [3%float; 4%float]].
Proof.
  apply (EST_reco_image_shape Mock.externals
           [[1%float; 2%float]; [3%float; 4%float]] [0%float; 0%float] 2 2 0
           default_tolerance default_learning_rate
           [[3%float; 4%float]; [3%float; 4%float]] Mock_contract);
    try lia; try reflexivity.
  split; [reflexivity|]. repeat constructor.
Defined.

Lemma set_rows_index_error {A} (f : A -> list float) P :
  forall (l : list A) i (m : matrix),
    length m = P -> i <= P -> P - i < length l ->
    for_enumerate (fun i a m => set_row i (f a) m) i l m = Raise IndexError.
Proof.
  induction l as [|a l IH]; intros i m Hm Hi Hl; simpl in *; [lia|].
  destruct (set_row i (f a) m) as [m'|e] eqn:Hset; unfold set_row in Hset;
    case_decide; try discriminate; simpl.
  - injection Hset as <-. apply IH; [now rewrite length_insert|lia|lia].
  - now injection Hset as <-.
Qed.

Lemma forward_projection_index_error (E : Externals) theta img P D :
  P < length theta -> forward_projection E theta img P D = Raise IndexError.
Proof.
  intros H. unfold forward_projection.
  apply (set_rows_index_error (project_angle E img D) P);
    [apply length_replicate|lia|lia].
Qed.

(** X7. The forward projection fails with an [IndexError] exactly when
    there are more angles than rows in the sinogram, and then so does every
    run of the loop that makes at least one pass. *)
Theorem more_angles_than_rows
    (E : Externals) (sinogram : matrix) (theta : vector) (P D : nat)
    (tol lr : float) (img : matrix) :
  (forward_projection E theta img P D = Raise IndexError <-> P < length theta) /\
  (P < length theta ->
   forall n prev, EST_loop E sinogram theta P D tol lr (S n) img prev = Raise IndexError).
Proof.
  split; [split|].
  - intros H. destruct (decide (P < length theta)) as [|Hle]; [assumption|].
    destruct (forward_projection_ok E theta img P D) as (proj & Hrun & _); [lia|].
    congruence.
  - apply forward_projection_index_error.
  - intros H n prev. rewrite EST_loop_step. unfold residual.
    now rewrite forward_projection_index_error.
Qed.

Lemma concat_empty r c (m : matrix) : rect r c m -> r = 0 \/ c = 0 -> concat m = [].
Proof.
  intros [Hl Hf] [->| ->].
  - now destruct m.
  - clear Hl. induction Hf as [|row m Hrow _ IH]; simpl; [reflexivity|].
    destruct row; [|discriminate]. exact IH.
Qed.

(** X8. A sinogram without rows or without columns has no maximal error:
    the first pass of the loop fails with the [ValueError] of [np.max]
    (while a run of no iteration returns the initial guess). *)
Theorem empty_sinogram_raises
    (E : Externals) (sinogram : matrix) (theta : vector) (P D n : nat)
    (tol lr : float) (img : matrix) (prev : float) :
  rect P D sinogram -> P = 0 \/ D = 0 -> length theta <= P ->
  EST_loop E sinogram theta P D tol lr (S n) img prev = Raise ValueError /\
  EST_loop E sinogram theta P D tol lr 0 img prev = Ok img.
Proof.
  intros Hs Hempty Hlen. split; [|reflexivity].
  rewrite EST_loop_step. unfold residual.
  destruct (forward_projection_ok E theta img P D Hlen) as (proj & -> & Hproj & _).
  simpl. unfold np.max.
  rewrite (concat_empty P D); [reflexivity| |exact Hempty].
  apply rect_map. now apply rect_zip_with.
Qed.

(** A sinogram of two rows without columns. *)
Lemma empty_sinogram_raises_witness :
  EST_loop Mock.externals [[]; []] [0%float] 2 0 default_tolerance
    default_learning_rate 1 [] infinity = Raise ValueError /\
  EST_loop Mock.externals [[]; []] [0%float] 2 0 default_tolerance
    default_learning_rate 0 [] infinity = Ok [].
Proof.
  apply (empty_sinogram_raises Mock.externals [[]; []] [0%float] 2 0 0
           default_tolerance default_learning_rate [] infinity).
  - split; [reflexivity|]. repeat constructor.
  - right. reflexivity.
  - simpl. lia.
Defined.

Section ToleranceFacts.

Local Open Scope float_scope.

Lemma plateau_needs_positive_tolerance (prev m tol : float) :
  (0 <? tol) = false -> plateau prev m tol = false.
Proof.
  unfold plateau. rewrite !FloatAxioms.ltb_spec, FloatAxioms.abs_spec.
  change (Prim2SF 0) with (S754_zero false).
  unfold SFltb.
  destruct (Prim2SF (prev - m)) as [s|s| |s mx ex]; simpl;
    destruct (Prim2SF tol) as [s'|s'| |s' mt et]; try destruct s'; simpl;
    try reflexivity; try discriminate.
Qed.

End ToleranceFacts.

(** X9. With a tolerance that is not positive (zero, negative or NaN) the
    plateau test never holds: no pass stops the loop, which then runs its
    whole budget of iterations. *)
Theorem nonpositive_tolerance_never_stops
    (E : Externals) (sinogram : matrix) (theta : vector) (P D n : nat)
    (tol lr : float) (img : matrix) (prev : float) :
  (0 <? tol)%float = false ->
  iteration E sinogram theta P D tol lr img prev <> Ok Break /\
  EST_loop E sinogram theta P D tol lr (S n) img prev =
  ('(error, max_error) ← residual E sinogram theta P D img;
   img' ← update E theta P D lr img error;
   EST_loop E sinogram theta P D tol lr n img' max_error).
Proof.
  intros Htol. split.
  - unfold iteration.
    destruct (residual E sinogram theta P D img) as [[error m]|e]; simpl; [|discriminate].
    rewrite plateau_needs_positive_tolerance by exact Htol.
    destruct (update E theta P D lr img error); discriminate.
  - rewrite EST_loop_step.
    destruct (residual E sinogram theta P D img) as [[error m]|e]; simpl; [|reflexivity].
    now rewrite plateau_needs_positive_tolerance.
Qed.

(** The tolerance -1, on a pass whose error has not moved. *)
Lemma nonpositive_tolerance_never_stops_witness :
  iteration Mock.externals [[5%float]] [0%float] 1 1 (-1)%float
    default_learning_rate [[0%float]] 5%float <> Ok Break /\
  EST_loop Mock.externals [[5%float]] [0%float] 1 1 (-1)%float
    default_learning_rate 1 [[0%float]] 5%float =
  ('(error, max_error) ← residual Mock.externals [[5%float]] [0%float] 1 1 [[0%float]];
   img' ← update Mock.externals [0%float] 1 1 default_learning_rate [[0%float]] error;
   EST_loop Mock.externals [[5%float]] [0%float] 1 1 (-1)%float
     default_learning_rate 0 img' max_error).
Proof.
  apply (nonpositive_tolerance_never_stops Mock.externals [[5%float]] [0%float] 1 1 0
           (-1)%float default_learning_rate [[0%float]] 5%float).
  reflexivity.
Defined.

Lemma hd_zeros_like (m : matrix) : length (hd [] (np.zeros_like m)) = length (hd [] m).
Proof. destruct m as [|row m]; simpl; [reflexivity|now rewrite length_map]. Qed.

(** X10. When the sinogram has more columns than the image (the case in
    which line 80 pads the projections with zeros) and at least two, the
    residual row cannot be broadcast into the image: the update fails with
    a [ValueError] at the first angle. *)
Theorem wide_sinogram_update_raises
    (E : Externals) (angle : float) (theta : vector) (P D : nat) (lr : float)
    (img error : matrix) :
  length (hd [] img) < D -> 2 <= D -> 1 <= length error ->
  backprojection E (angle :: theta) error img D = Raise ValueError /\
  update E (angle :: theta) P D lr img error = Raise ValueError.
Proof.
  intros Hw HD Herr.
  assert (Hb : backprojection E (angle :: theta) error img D = Raise ValueError).
  { unfold backprojection. simpl.
    destruct error as [|row error]; simpl in Herr; [lia|]. simpl.
    unfold assign_leading_columns. rewrite hd_zeros_like.
    repeat case_decide; try lia. reflexivity. }
  split; [exact Hb|]. unfold update. now rewrite Hb.
Qed.

(** A 1 x 1 image against a sinogram of two columns. *)
Lemma wide_sinogram_update_raises_witness :
  backprojection Mock.externals [0%float] [[1%float; 2%float]] [[0%float]] 2
    = Raise ValueError /\
  update Mock.externals [0%float] 1 2 default_learning_rate [[0%float]]
    [[1%float; 2%float]] = Raise ValueError.
Proof.
  apply (wide_sinogram_update_raises Mock.externals 0%float [] 1 2
           default_learning_rate [[0%float]] [[1%float; 2%float]]); simpl; lia.
Defined.

(** ** What a run prints *)

Section Printing.

Context (E : Externals).

Lemma EST_loop_printing_result sinogram theta P D tol lr N k :
  forall i img prev,
    (EST_loop_printing E sinogram theta P D tol lr N i k img prev).2 =
    EST_loop E sinogram theta P D tol lr k img prev.
Proof.
  induction k as [|k IH]; intros i img prev; [reflexivity|].
  rewrite EST_loop_step. simpl.
  destruct (residual E sinogram theta P D img) as [[error m]|e]; simpl; [|reflexivity].
  destruct (plateau prev m tol); simpl; [reflexivity|].
  destruct (update E theta P D lr img error) as [img'|e]; simpl; [|reflexivity].
  rewrite <- (IH (S i) img' m).
  now destruct (EST_loop_printing E sinogram theta P D tol lr N (S i) k img' m).
Qed.

Lemma progress_lines_cons N first m errors :
  progress_lines N first (m :: errors) =
  Progress first N m :: progress_lines N (S first) errors.
Proof.
  unfold progress_lines. rewrite imap_cons, Nat.add_0_r. f_equal.
  apply imap_ext. intros j x _. simpl. f_equal. lia.
Qed.

Lemma last_cons (m : float) errors prev :
  List.last (m :: errors) prev = List.last errors m.
Proof.
  revert m prev. induction errors as [|x errors IH]; intros m prev; [reflexivity|].
  change (List.last (m :: x :: errors) prev) with (List.last (x :: errors) prev).
  now rewrite !IH.
Qed.

Lemma EST_loop_printing_lines sinogram theta P D tol lr N k :
  forall i img prev printed out,
    EST_loop_printing E sinogram theta P D tol lr N i k img prev = (printed, Ok out) ->
    (exists errors, printed = progress_lines N (S i) errors /\ length errors = k) \/
    (exists errors m,
       printed = progress_lines N (S i) (errors ++ [m])
                 ++ [Convergence (S i + length errors)] /\
       length errors < k /\
       plateau (List.last errors prev) m tol = true).
Proof.
  induction k as [|k IH]; intros i img prev printed out Hrun; simpl in Hrun.
  { injection Hrun as <- _. left. exists []. now split. }
  destruct (residual E sinogram theta P D img) as [[error m]|e]; [|discriminate].
  destruct (plateau prev m tol) eqn:Hp.
  { injection Hrun as <- _. right. exists [], m. simpl.
    rewrite Nat.add_1_r, !Nat.add_0_r. split; [reflexivity|]. split; [lia|exact Hp]. }
  destruct (update E theta P D lr img error) as [img'|e]; [|discriminate].
  destruct (EST_loop_printing E sinogram theta P D tol lr N (S i) k img' m)
    as [ls r] eqn:Hrec.
  injection Hrun as <- ->. rewrite Nat.add_1_r.
  destruct (IH (S i) img' m ls out Hrec) as [(errors & -> & Hlen)|(errors & m' & -> & Hlen & Hpl)].
  - left. exists (m :: errors). rewrite progress_lines_cons. simpl. split; [reflexivity|lia].
  - right. exists (m :: errors), m'.
    rewrite <- app_comm_cons, progress_lines_cons, last_cons. simpl.
    replace (S (i + S (length errors))) with (S (S i) + length errors) by lia.
    split; [reflexivity|]. split; [lia|exact Hpl].
Qed.

End Printing.

(** X11. A run that returns has printed one progress line for each pass
    it began, numbered 1, 2, ... in order: either [num_iterations] of them
    and nothing else, or [k] of them, with [2 <= k <= num_iterations],
    followed by one convergence line that carries the number [k] of the
    last pass, whose error is within the tolerance of the error before. A
    run that converges at its last pass has printed [num_iterations]
    progress lines and the convergence line. The lines are a record only:
    the result is that of [EST_reco]. *)
Theorem EST_reco_printed_lines
    (E : Externals) (sinogram : matrix) (theta : vector) (n : nat)
    (tol lr : float) (printed : list line) (out : matrix) :
  EST_reco_printing E sinogram theta n tol lr = (printed, Ok out) ->
  EST_reco E sinogram theta n tol lr = Ok out /\
  ((exists errors, printed = progress_lines n 1 errors /\ length errors = n) \/
   (exists errors m,
      printed = progress_lines n 1 (errors ++ [m])
                ++ [Convergence (length errors + 1)] /\
      1 <= length errors < n /\
      plateau (List.last errors infinity) m tol = true)).
Proof.
  intros Hrun. unfold EST_reco_printing, EST_reco in *.
  destruct (np.shape sinogram) as [P D].
  destruct (iradon E (np.rot90_neg1 sinogram) theta) as [init|e]; [|discriminate].
  simpl. split.
  - rewrite <- (EST_loop_printing_result E sinogram theta P D tol lr n n 0 init infinity).
    now rewrite Hrun.
  - destruct (EST_loop_printing_lines E _ _ _ _ _ _ _ _ _ _ _ _ _ Hrun)
      as [H|(errors & m & -> & Hlen & Hpl)]; [left; exact H|].
    right. exists errors, m. rewrite Nat.add_1_r. split; [reflexivity|].
    split; [|exact Hpl]. split; [|exact Hlen].
    destruct errors as [|x errors]; [|simpl; lia].
    simpl in Hpl. now rewrite plateau_inf in Hpl.
Qed.

(** The run on the sinogram [[-1]]: three passes, then convergence. *)
Lemma EST_reco_printed_lines_witness :
  EST_reco Mock.externals [[(-1)%float]] [0%float] default_num_iterations
    default_tolerance default_learning_rate = Ok [[0%float]] /\
  ((exists errors,
      [Progress 1 200 0%float; Progress 2 200 1%float; Progress 3 200 1%float;
       Convergence 3] = progress_lines default_num_iterations 1 errors /\
      length errors = default_num_iterations) \/
   (exists errors m,
      [Progress 1 200 0%float; Progress 2 200 1%float; Progress 3 200 1%float;
       Convergence 3]
      = progress_lines default_num_iterations 1 (errors ++ [m])
        ++ [Convergence (length errors + 1)] /\
      1 <= length errors < default_num_iterations /\
      plateau (List.last errors infinity) m default_tolerance = true)).
Proof.
  apply (EST_reco_printed_lines Mock.externals [[(-1)%float]] [0%float]
           default_num_iterations default_tolerance default_learning_rate).
  vm_compute. reflexivity.
Defined.

(** ** The array that is returned *)

Section Fresh.

Context (E : Externals).

Lemma EST_loop_returns_later s t sinogram theta P D tol lr b n :
  forall est img prev h l h',
    h !! s = Some (Imp.Arr2 sinogram) -> h !! t = Some (Imp.Arr1 theta) ->
    h !! est = Some (Imp.Arr2 img) -> s < b -> t < b -> b <= est ->
    Imp.EST_loop E s t P D tol lr n est prev h = Ok (l, h') ->
    est <= l /\ length h <= length h'.
Proof.
  induction n as [|n IH]; intros est img prev h l h' Hs Ht Hest Hsb Htb Hb Hrun;
    simpl in Hrun.
  { injection Hrun as <- <-. lia. }
  pose proof (iteration_refines E s t est sinogram theta img P D tol lr prev h Hs Ht Hest)
    as Hi.
  assert (Hlen : est < length h) by (apply lookup_lt_is_Some; eauto).
  unfold refines in Hi.
  destruct (iteration E sinogram theta P D tol lr img prev) as [st|e];
    [destruct Hi as ([st' h1] & Hi & Hpass)|rewrite Hi in Hrun; discriminate].
  rewrite Hi in Hrun. simpl in Hrun.
  destruct st as [|img' prev']; simpl in Hpass.
  - destruct Hpass as [-> Hsame]. injection Hrun as <- <-. split; [lia|].
    destruct (decide (length h <= length h1)) as [|Hn]; [assumption|].
    destruct (lookup_lt_is_Some_2 h (length h - 1)) as [a Ha]; [lia|].
    specialize (Hsame (length h - 1) ltac:(lia)). rewrite Ha in Hsame.
    apply lookup_lt_Some in Hsame. lia.
  - destruct Hpass as (est' & -> & Hest' & Hge & Hsame).
    assert (Hs' : h1 !! s = Some (Imp.Arr2 sinogram)) by (rewrite Hsame; [assumption|lia|lia]).
    assert (Ht' : h1 !! t = Some (Imp.Arr1 theta)) by (rewrite Hsame; [assumption|lia|lia]).
    destruct (IH est' img' prev' h1 l h' Hs' Ht' Hest' Hsb Htb ltac:(lia) Hrun) as [H1 H2].
    apply lookup_lt_Some in Hest'. lia.
Qed.

End Fresh.

(** X12. The array that [EST_reco] returns is a new object: its address
    is none of those of the arrays that existed at the call, so the result
    never shares its data with the sinogram, the angles or any other array
    of the caller (nor, when no iteration runs, with the initial guess,
    which is copied); and the call frees nothing. *)
Theorem EST_reco_returns_new_array
    (E : Externals) (s t : Imp.loc) (sinogram : matrix) (theta : vector)
    (n : nat) (tol lr : float) (h h' : Imp.heap) (l : Imp.loc) :
  h !! s = Some (Imp.Arr2 sinogram) -> h !! t = Some (Imp.Arr1 theta) ->
  Imp.EST_reco E s t n tol lr h = Ok (l, h') ->
  length h < l /\ l <> s /\ l <> t /\ length h <= length h'.
Proof.
  intros Hs Ht Hrun.
  assert (Hsl : s < length h) by (apply lookup_lt_is_Some; eauto).
  assert (Htl : t < length h) by (apply lookup_lt_is_Some; eauto).
  unfold Imp.EST_reco in Hrun.
  rewrite (load2_lookup _ _ _ Hs), (load1_lookup _ _ _ Ht) in Hrun. simpl in Hrun.
  destruct (iradon E (np.rot90_neg1 sinogram) theta) as [init|e]; simpl in Hrun;
    [|discriminate].
  unfold Imp.alloc in Hrun. rewrite load2_middle in Hrun. simpl in Hrun.
  destruct (EST_loop_returns_later E s t sinogram theta
              (length sinogram) (length (hd [] sinogram)) tol lr (length h) n
              (length (h ++ [Imp.Arr2 init])) init infinity
              ((h ++ [Imp.Arr2 init]) ++ [Imp.Arr2 init]) l h'
              ltac:(now apply lookup_app_l_Some, lookup_app_l_Some)
              ltac:(now apply lookup_app_l_Some, lookup_app_l_Some)
              ltac:(now apply list_lookup_middle) Hsl Htl
              ltac:(rewrite length_app; lia) Hrun) as [H1 H2].
  rewrite !length_app in *. simpl in *. lia.
Qed.

(** The call of [demo_result]. *)
Lemma EST_reco_returns_new_array_witness :
  length demo_heap < demo_result.1 /\ demo_result.1 <> 0 /\ demo_result.1 <> 1 /\
  length demo_heap <= length demo_result.2.
Proof.
  apply (EST_reco_returns_new_array Mock.externals 0 1 [[1%float]] [0%float] 2
           default_tolerance default_learning_rate demo_heap demo_result.2
           demo_result.1); vm_compute; reflexivity.
Defined.

(** ** [make_phantom] *)

Section ClipFacts.

Local Open Scope float_scope.

Lemma ltb_leb (x y : float) : (x <? y) = true -> (x <=? y) = true.
Proof.
  rewrite FloatAxioms.ltb_spec, FloatAxioms.leb_spec. unfold SFltb, SFleb.
  now destruct (SFcompare (Prim2SF x) (Prim2SF y)) as [[| |]|].
Qed.

Lemma clip_scalar_unit (x : float) : unit_or_nan (clip_scalar x 0 1) = true.
Proof.
  unfold clip_scalar, unit_or_nan. cbv zeta.
  destruct (is_nan x) eqn:Hn; [now rewrite Hn, Hn, orb_true_r|].
  destruct (0 <? x) eqn:H0.
  - rewrite Hn. destruct (x <? 1) eqn:H1.
    + now rewrite (ltb_leb _ _ H0), (ltb_leb _ _ H1).
    + reflexivity.
  - reflexivity.
Qed.

End ClipFacts.

Lemma make_phantom_loop_small disk size d draws phantom :
  size < 60 -> make_phantom_loop disk size (d :: draws) phantom = Raise ValueError.
Proof.
  intros Hsize. cbn -[Nat.div]. case_decide; [reflexivity|].
  case_decide as Hdiv; [reflexivity|]. exfalso. apply Hdiv.
  pose proof (Nat.div_mod_eq size 10) as Hdm.
  pose proof (Nat.mod_upper_bound size 10 ltac:(lia)). lia.
Qed.

(** X13. A phantom of side below 60 cannot hold a single disk: the radius
    is drawn from [5, size // 10), an empty range, and the call fails with
    a [ValueError]; without disks it returns the array of zeros, whatever
    the size. *)
Theorem make_phantom_small_size
    (disk : nat * nat -> nat -> nat * nat -> list (nat * nat))
    (size : nat) (d : draw) (draws : list draw) :
  size < 60 ->
  make_phantom disk size (d :: draws) = Raise ValueError /\
  make_phantom disk size [] = Ok (np.zeros size size).
Proof.
  intros Hsize. split; [|reflexivity].
  unfold make_phantom. now apply make_phantom_loop_small.
Qed.

Lemma make_phantom_small_size_witness :
  make_phantom mock_disk 59 [Build_draw 1 1 5 0x1p-1%float] = Raise ValueError /\
  make_phantom mock_disk 59 [] = Ok (np.zeros 59 59).
Proof.
  apply (make_phantom_small_size mock_disk 59 (Build_draw 1 1 5 0x1p-1%float) []). lia.
Defined.

Lemma rect_imap r c (f : nat -> nat -> float -> float) (m : matrix) :
  rect r c m -> rect r c (imap (fun i row => imap (f i) row) m).
Proof.
  intros [Hl Hf]. split; [now rewrite length_imap|].
  apply Forall_lookup_2. intros i row Hi.
  apply list_lookup_imap_Some in Hi as (row0 & Hrow0 & ->).
  rewrite length_imap. exact (Forall_lookup_1 _ _ _ _ Hf Hrow0).
Qed.

Lemma add_at_ok size coords intensity phantom :
  rect size size phantom ->
  Forall (fun rc => rc.1 < size /\ rc.2 < size) coords ->
  exists out, add_at coords intensity phantom = Ok out /\ rect size size out /\
    forall r c, (r, c) ∉ coords -> pixel out r c = pixel phantom r c.
Proof.
  intros Hp Hc. unfold add_at.
  assert (Hall : forallb (in_bounds phantom) coords = true).
  { apply forallb_forall. intros rc Hin. apply list_elem_of_In in Hin.
    rewrite Forall_forall in Hc. destruct (Hc rc Hin) as [H1 H2].
    unfold in_bounds. destruct Hp as [Hl Hf].
    destruct (lookup_lt_is_Some_2 phantom rc.1) as [row Hrow]; [lia|].
    rewrite Hrow. apply bool_decide_eq_true.
    now rewrite (Forall_lookup_1 _ _ _ _ Hf Hrow). }
  rewrite Hall. eexists. split; [reflexivity|]. split; [now apply rect_imap|].
  intros r c Hnot. unfold pixel. rewrite list_lookup_imap.
  destruct (phantom !! r) as [row|]; simpl; [|reflexivity].
  rewrite list_lookup_imap. destruct (row !! c) as [x|]; simpl; [|reflexivity].
  now rewrite bool_decide_eq_false_2.
Qed.

Lemma pixel_clip m r c x :
  pixel m r c = Some x ->
  pixel (np_clip m 0%float 1%float) r c = Some (clip_scalar x 0%float 1%float).
Proof.
  unfold pixel, np_clip. rewrite lookup_map.
  destruct (m !! r) as [row|]; simpl; [|discriminate].
  rewrite lookup_map. now intros ->.
Qed.

Lemma clip_unit m : all_entries unit_or_nan (np_clip m 0%float 1%float).
Proof.
  unfold all_entries, np_clip.
  apply Forall_map, Forall_forall. intros row _. simpl.
  apply Forall_map, Forall_forall. intros x _. apply clip_scalar_unit.
Qed.

Lemma make_phantom_loop_ok disk size draws :
  60 <= size -> disk_in_shape disk ->
  forall phantom,
    rect size size phantom -> all_entries unit_or_nan phantom ->
    exists out,
      make_phantom_loop disk size draws phantom = Ok out /\
      rect size size out /\ all_entries unit_or_nan out /\
      forall r c,
        Forall (fun d => (r, c) ∉ disk (draw_x d, draw_y d) (draw_radius d) (size, size))
               draws ->
        pixel phantom r c = Some 0%float -> pixel out r c = Some 0%float.
Proof.
  intros Hsize Hdisk. induction draws as [|d draws IH]; intros phantom Hp Hu;
    cbn -[Nat.div].
  { exists phantom. auto. }
  case_decide; [lia|]. case_decide as Hdiv.
  { pose proof (Nat.div_mod_eq size 10) as Hdm.
    pose proof (Nat.mod_upper_bound size 10 ltac:(lia)). lia. }
  rewrite (rect_shape size size phantom Hp) by lia.
  destruct (add_at_ok size (disk (draw_x d, draw_y d) (draw_radius d) (size, size))
              (draw_intensity d) phantom Hp (Hdisk _ _ _ _)) as (p1 & -> & Hp1 & Hpix).
  simpl.
  destruct (IH (np_clip p1 0%float 1%float)) as (out & Hrun & Hout & Hunit & Hzero);
    [now apply rect_map|apply clip_unit|].
  exists out. split; [exact Hrun|]. split; [exact Hout|]. split; [exact Hunit|].
  intros r c Hfar H0. inversion Hfar as [|? ? Hd Hrest]; subst.
  apply Hzero; [exact Hrest|].
  apply (pixel_clip p1 r c 0%float). rewrite Hpix by exact Hd. exact H0.
Qed.

Lemma pixel_zeros size r c : r < size -> c < size -> pixel (np.zeros size size) r c = Some 0%float.
Proof.
  intros Hr Hc. unfold pixel, np.zeros. rewrite lookup_replicate_2 by lia. simpl.
  now apply lookup_replicate_2.
Qed.

Lemma zeros_unit size : all_entries unit_or_nan (np.zeros size size).
Proof.
  unfold all_entries, np.zeros. apply Forall_replicate, Forall_replicate. reflexivity.
Qed.

(** X14. For a side of at least 60 (and a [disk] that keeps to the shape
    it is given) [make_phantom] returns a [size] by [size] array whose
    elements are all within [0, 1] (or NaN, if the generator were to hand
    one out), however many disks overlap. *)
Theorem make_phantom_bounded
    (disk : nat * nat -> nat -> nat * nat -> list (nat * nat))
    (size : nat) (draws : list draw) :
  60 <= size -> disk_in_shape disk ->
  exists phantom,
    make_phantom disk size draws = Ok phantom /\
    rect size size phantom /\ all_entries unit_or_nan phantom.
Proof.
  intros Hsize Hdisk. unfold make_phantom.
  destruct (make_phantom_loop_ok disk size draws Hsize Hdisk (np.zeros size size))
    as (out & Hrun & Hrect & Hunit & _); [apply rect_zeros|apply zeros_unit|].
  eauto.
Qed.

(** X15. A pixel that lies in none of the disks keeps the value 0 of the
    background. *)
Theorem make_phantom_background
    (disk : nat * nat -> nat -> nat * nat -> list (nat * nat))
    (size : nat) (draws : list draw) (r c : nat) (phantom : matrix) :
  60 <= size -> disk_in_shape disk -> r < size -> c < size ->
  Forall (fun d => (r, c) ∉ disk (draw_x d, draw_y d) (draw_radius d) (size, size))
         draws ->
  make_phantom disk size draws = Ok phantom ->
  pixel phantom r c = Some 0%float.
Proof.
  intros Hsize Hdisk Hr Hc Hfar Hrun. unfold make_phantom in Hrun.
  destruct (make_phantom_loop_ok disk size draws Hsize Hdisk (np.zeros size size))
    as (out & Hrun' & _ & _ & Hzero); [apply rect_zeros|apply zeros_unit|].
  rewrite Hrun in Hrun'. injection Hrun' as <-.
  apply Hzero; [exact Hfar|now apply pixel_zeros].
Qed.

Lemma mock_disk_in_shape : disk_in_shape mock_disk.
Proof.
  intros center radius rows cols. unfold mock_disk. simpl.
  case_bool_decide; [|constructor]. now repeat constructor.
Qed.

Lemma make_phantom_bounded_witness :
  exists phantom,
    make_phantom mock_disk 60 demo_draws = Ok phantom /\
    rect 60 60 phantom /\ all_entries unit_or_nan phantom.
Proof.
  apply (make_phantom_bounded mock_disk 60 demo_draws); [lia|apply mock_disk_in_shape].
Defined.

(** The corner (0, 0) of [demo_phantom], whose two disks are at (1, 1). *)
Lemma make_phantom_background_witness : pixel demo_phantom 0 0 = Some 0%float.
Proof.
  apply (make_phantom_background mock_disk 60 demo_draws 0 0 demo_phantom);
    try lia; [apply mock_disk_in_shape| |vm_compute; reflexivity].
  repeat constructor; intros Hin; apply list_elem_of_In in Hin;
    vm_compute in Hin; destruct Hin as [Hin|[]]; discriminate.
Defined.

(** ** A larger budget of iterations *)

Lemma EST_loop_converged_budget (E : Externals) sinogram theta P D tol lr N k :
  forall i img prev printed out j,
    EST_loop_printing E sinogram theta P D tol lr N i k img prev = (printed, Ok out) ->
    last printed = Some (Convergence j) ->
    i < j /\
    forall k', j - i <= k' -> EST_loop E sinogram theta P D tol lr k' img prev = Ok out.
Proof.
  induction k as [|k IH]; intros i img prev printed out j Hrun Hlast; simpl in Hrun.
  { injection Hrun as <- _. discriminate. }
  destruct (residual E sinogram theta P D img) as [[error m]|e] eqn:Hres; [|discriminate].
  destruct (plateau prev m tol) eqn:Hp.
  { injection Hrun as <- <-. simpl in Hlast. injection Hlast as <-.
    split; [lia|]. intros [|k'] Hk; [lia|].
    rewrite EST_loop_step, Hres. simpl. now rewrite Hp. }
  destruct (update E theta P D lr img error) as [img'|e] eqn:Hu; [|discriminate].
  destruct (EST_loop_printing E sinogram theta P D tol lr N (S i) k img' m)
    as [ls r] eqn:Hrec.
  injection Hrun as <- ->.
  assert (Hls : last ls = Some (Convergence j)).
  { destruct ls as [|x ls]; [discriminate|]. exact Hlast. }
  destruct (IH (S i) img' m ls out j Hrec Hls) as [Hij Hbudget].
  split; [lia|]. intros [|k'] Hk; [lia|].
  rewrite EST_loop_step, Hres. simpl. rewrite Hp, Hu. simpl.
  apply Hbudget. lia.
Qed.

(** X16. Once a run has stopped on a plateau, at the pass it announces in
    its convergence line, any budget of at least that many iterations
    returns the same image: raising [num_iterations] further changes
    nothing. *)
Theorem converged_run_ignores_larger_budget
    (E : Externals) (sinogram : matrix) (theta : vector) (n j n' : nat)
    (tol lr : float) (printed : list line) (out : matrix) :
  EST_reco_printing E sinogram theta n tol lr = (printed, Ok out) ->
  last printed = Some (Convergence j) ->
  j <= n' ->
  EST_reco E sinogram theta n' tol lr = Ok out.
Proof.
  intros Hrun Hlast Hn. unfold EST_reco_printing, EST_reco in *.
  destruct (np.shape sinogram) as [P D].
  destruct (iradon E (np.rot90_neg1 sinogram) theta) as [init|e]; [|discriminate].
  simpl.
  destruct (EST_loop_converged_budget E _ _ _ _ _ _ _ _ _ _ _ _ _ _ Hrun Hlast) as [_ H].
  apply H. lia.
Qed.

(** The run on the sinogram [[-1]] converges at its third pass: a budget
    of 3 iterations returns what 200 return. *)
Lemma converged_run_ignores_larger_budget_witness :
  EST_reco Mock.externals [[(-1)%float]] [0%float] 3 default_tolerance
    default_learning_rate = Ok [[0%float]].
Proof.
  apply (converged_run_ignores_larger_budget Mock.externals [[(-1)%float]] [0%float]
           default_num_iterations 3 3 default_tolerance default_learning_rate
           [Progress 1 200 0%float; Progress 2 200 1%float; Progress 3 200 1%float;
            Convergence 3] [[0%float]]);
    [vm_compute; reflexivity|reflexivity|lia].
Defined.
